(** * ClayWorks enrichment and qualification core

    A shallow embedding of the recipe engine ([clayworks/data/recipes.py]),
    the scoring engine ([clayworks/core/scoring.py]) and the enrichment
    pipeline ([clayworks/data/enrichment.py]), with the properties their
    specification states.

    Conventions.
    - A Python [dict] with string keys is a [gmap string _]; a Python [set]
      of strings is a [gset string].
    - A Python [int] is a [Z]; a finite [float] is the rational it denotes.
    - An operation of the source that can raise returns a [result]; a plain
      Rocq function stands for code that contains no raising operation.
    - Wall-clock readings ([datetime.now()]) are an explicit argument where a
      value depends on them; the timestamps stored in result objects
      ([started_at], [completed_at], [scored_at], ...) are left out. *)

From Stdlib Require Import ZArith QArith Qround String Ascii List Lia.
From Stdlib Require Import Permutation Sorted DecimalString.
From stdpp Require Import gmap strings list.

Set Warnings "-register-all,-clear-no-such-hyp".
Close Scope Q_scope.
Local Open Scope Z_scope.
Local Open Scope string_scope.
Local Open Scope list_scope.

(** ** Python values and the builtin operations the source applies to them *)

Module Py.

(** The value kinds a record can hold.  [VDatetime] is a naive [datetime],
    kept as microseconds since the epoch; [VDict] lists its items in
    insertion order, each key once. *)
Inductive Value : Type :=
| VNone
| VBool (b : bool)
| VInt (n : Z)
| VFloat (q : Q)
| VStr (s : string)
| VDatetime (us : Z)
| VList (items : list Value)
| VDict (items : list (string * Value)).

(** Outcome of an expression that may raise.  The only exception the
    operators below can raise is [TypeError]. *)
Inductive result (A : Type) : Type :=
| Ok (a : A)
| TypeError.
Arguments Ok {A} a.
Arguments TypeError {A}.

Definition bind {A B} (r : result A) (k : A -> result B) : result B :=
  match r with
  | Ok a => k a
  | TypeError => TypeError
  end.

(** [bool], [int] and [float] form Python's numeric tower. *)
Definition as_number (v : Value) : option Q :=
  match v with
  | VBool b => Some (inject_Z (if b then 1 else 0))
  | VInt n => Some (inject_Z n)
  | VFloat q => Some q
  | _ => None
  end.

Definition is_numeric (v : Value) : bool :=
  match as_number v with Some _ => true | None => false end.

Definition Qlt_bool (x y : Q) : bool := negb (Qle_bool y x).

Fixpoint assoc (k : string) (items : list (string * Value)) : option Value :=
  match items with
  | [] => None
  | (k', v) :: rest => if String.eqb k k' then Some v else assoc k rest
  end.

(** [a == b] *)
Fixpoint py_eq (a b : Value) {struct a} : bool :=
  match a, b with
  | VNone, VNone => true
  | VStr s, VStr t => String.eqb s t
  | VDatetime x, VDatetime y => Z.eqb x y
  | VList la, VList lb =>
      (fix all_eq (xs ys : list Value) {struct xs} : bool :=
         match xs, ys with
         | [], [] => true
         | x :: xs', y :: ys' => py_eq x y && all_eq xs' ys'
         | _, _ => false
         end) la lb
  | VDict da, VDict db =>
      Nat.eqb (length da) (length db) &&
      (fix all_in (xs : list (string * Value)) {struct xs} : bool :=
         match xs with
         | [] => true
         | (k, v) :: xs' =>
             match assoc k db with
             | Some w => py_eq v w && all_in xs'
             | None => false
             end
         end) da
  | _, _ =>
      match as_number a, as_number b with
      | Some x, Some y => Qeq_bool x y
      | _, _ => false
      end
  end.

(** The four ordering operators. *)
Inductive ordering : Type := Lt_ | Le_ | Gt_ | Ge_.

Definition order_Q (op : ordering) (x y : Q) : bool :=
  match op with
  | Lt_ => Qlt_bool x y
  | Le_ => Qle_bool x y
  | Gt_ => Qlt_bool y x
  | Ge_ => Qle_bool y x
  end.

Definition order_Z (op : ordering) (x y : Z) : bool :=
  match op with
  | Lt_ => Z.ltb x y
  | Le_ => Z.leb x y
  | Gt_ => Z.ltb y x
  | Ge_ => Z.leb y x
  end.

Definition order_string (op : ordering) (s t : string) : bool :=
  match op with
  | Lt_ => String.ltb s t
  | Le_ => String.leb s t
  | Gt_ => String.ltb t s
  | Ge_ => String.leb t s
  end.

(** [a < b], [a <= b], [a > b], [a >= b].  Numbers order among
    themselves, strings lexicographically, datetimes by instant, lists
    by their first differing element and then by length; every other
    pairing raises [TypeError]. *)
Fixpoint py_order (op : ordering) (a b : Value) {struct a} : result bool :=
  match a, b with
  | VStr s, VStr t => Ok (order_string op s t)
  | VDatetime x, VDatetime y => Ok (order_Z op x y)
  | VList la, VList lb =>
      (fix first_diff (xs ys : list Value) {struct xs} : result bool :=
         match xs, ys with
         | x :: xs', y :: ys' =>
             if py_eq x y then first_diff xs' ys' else py_order op x y
         | _, _ =>
             Ok (order_Z op (Z.of_nat (length xs)) (Z.of_nat (length ys)))
         end) la lb
  | _, _ =>
      match as_number a, as_number b with
      | Some x, Some y => Ok (order_Q op x y)
      | _, _ => TypeError
      end
  end.

(** [needle in hay] on strings. *)
Definition substring_of (needle hay : string) : bool :=
  match String.index 0 needle hay with
  | Some _ => true
  | None => false
  end.

(** [x in container] *)
Definition py_in (x container : Value) : result bool :=
  match container with
  | VList items => Ok (existsb (fun e => py_eq e x) items)
  | VStr hay =>
      match x with
      | VStr needle => Ok (substring_of needle hay)
      | _ => TypeError
      end
  | VDict items =>
      match x with
      | VList _ | VDict _ => TypeError
      | VStr k => Ok (match assoc k items with Some _ => true | None => false end)
      | _ => Ok false
      end
  | _ => TypeError
  end.

(** [x not in container] *)
Definition py_not_in (x container : Value) : result bool :=
  bind (py_in x container) (fun b => Ok (negb b)).

(** [str(n)] for a natural number and for an integer. *)
Definition str_nat (n : nat) : string := NilZero.string_of_uint (Nat.to_uint n).
Definition str_Z (n : Z) : string := NilZero.string_of_int (Z.to_int n).

(** [str(v)].  The text of a string, an integer, a boolean and [None] is
    fixed by simple rules; the text Python prints for the remaining kinds
    is supplied by [render]. *)
Definition py_str (render : Value -> string) (v : Value) : string :=
  match v with
  | VStr s => s
  | VNone => "None"
  | VBool true => "True"
  | VBool false => "False"
  | VInt n => str_Z n
  | _ => render v
  end.

(** Truth value of [v], as [if v:] tests it. *)
Definition truthy (v : Value) : bool :=
  match v with
  | VNone => false
  | VBool b => b
  | VInt n => negb (Z.eqb n 0)
  | VFloat q => negb (Qeq_bool q 0)
  | VStr s => negb (String.eqb s "")
  | VDatetime _ => true
  | VList items => match items with [] => false | _ => true end
  | VDict items => match items with [] => false | _ => true end
  end.

(** [v is None] *)
Definition is_none (v : Value) : bool :=
  match v with VNone => true | _ => false end.

(** [(now - t).days]: whole days between two instants, rounded down. *)
Definition microseconds_per_day : Z := 86400 * 1000000.
Definition timedelta_days (now t : Z) : Z := (now - t) / microseconds_per_day.

(** Induction on values that reaches the elements of a list and the
    values of a dict. *)
Section ValueInduction.
Variable P : Value -> Prop.
Hypothesis P_none : P VNone.
Hypothesis P_bool : forall b, P (VBool b).
Hypothesis P_int : forall n, P (VInt n).
Hypothesis P_float : forall q, P (VFloat q).
Hypothesis P_str : forall s, P (VStr s).
Hypothesis P_datetime : forall us, P (VDatetime us).
Hypothesis P_list : forall items, List.Forall P items -> P (VList items).
Hypothesis P_dict :
  forall items, List.Forall (fun kv => P (snd kv)) items -> P (VDict items).


End ValueInduction.

End Py.

Import Py.

(** A record: the [Dict[str, Any]] every engine reads. *)
Abbreviation Dict := (gmap string Value).

(** [d.get(key)] *)
Definition dict_get (d : Dict) (key : string) : Value :=
  match d !! key with
  | Some v => v
  | None => VNone
  end.

(** ** Recipes ([clayworks/data/recipes.py]) *)

Module Recipes.

Inductive ConditionOperator : Type :=
| EQUALS
| NOT_EQUALS
| CONTAINS
| NOT_CONTAINS
| GREATER_THAN
| LESS_THAN
| GREATER_OR_EQUAL
| LESS_OR_EQUAL
| IN_LIST
| NOT_IN_LIST
| EXISTS
| NOT_EXISTS
| MATCHES_REGEX
| WITHIN_DAYS.

Record RecipeCondition : Type := {
  field : string;
  operator : ConditionOperator;
  value : Value;
  source : option string
}.

Record ScoringComponent : Type := {
  name : string;
  description : string;
  points : Z;
  weight_percentage : Q;
  condition : RecipeCondition
}.

Record DataIngredient : Type := {
  ingredient_source : string;
  data_point : string;
  signal_description : string;
  ingredient_required : bool;
  fallback_sources : list string
}.

Record ValidationStep : Type := {
  validation_description : string;
  verification_method : string;
  validation_required : bool
}.

Record DataRecipe : Type := {
  recipe_name : string;
  recipe_description : string;
  target_outcome : string;
  target_persona : string;
  target_company_type : string;
  timeframe : string;
  ingredients : list DataIngredient;
  required_conditions : list RecipeCondition;
  optional_conditions : list RecipeCondition;
  scoring_components : list ScoringComponent;
  score_threshold : Z;
  validation_steps : list ValidationStep;
  output_segment : string;
  output_sequence : string;
  version : string;
  author : string
}.

(** The dictionary [DataRecipe.evaluate] returns.  A key the early return
    leaves out is [None] here; [res_output_segment] is [Some None] when the
    key is present with value [None]. *)
Record Evaluation : Type := {
  matches : bool;
  reason : option string;
  score : Z;
  threshold : Z;
  required_conditions_met : option bool;
  optional_conditions_met : option nat;
  scoring_details : option (list (string * Z));
  res_output_segment : option (option string)
}.

(** The attribute of the recipe a condition is read from. *)
Inductive origin : Type := Required | Optional | Component.

Section Evaluate.

(** Text of [str()] on floats, datetimes, lists and dicts. *)
Variable render : Value -> string.

(** [datetime.now()], in microseconds since the epoch. *)
Variable now : Z.

(** [RecipeCondition.evaluate] *)
Definition RecipeCondition_evaluate (self : RecipeCondition) (data : Dict) : result bool :=
  let field_value := dict_get data (field self) in
  match operator self with
  | EXISTS => Ok (negb (is_none field_value))
  | NOT_EXISTS => Ok (is_none field_value)
  | op =>
      if is_none field_value then Ok false
      else
        match op with
        | EQUALS => Ok (py_eq field_value (value self))
        | NOT_EQUALS => Ok (negb (py_eq field_value (value self)))
        | CONTAINS => py_in (value self) (VStr (py_str render field_value))
        | NOT_CONTAINS => py_not_in (value self) (VStr (py_str render field_value))
        | GREATER_THAN => py_order Gt_ field_value (value self)
        | LESS_THAN => py_order Lt_ field_value (value self)
        | GREATER_OR_EQUAL => py_order Ge_ field_value (value self)
        | LESS_OR_EQUAL => py_order Le_ field_value (value self)
        | IN_LIST => py_in field_value (value self)
        | NOT_IN_LIST => py_not_in field_value (value self)
        | WITHIN_DAYS =>
            match field_value with
            | VDatetime t => py_order Le_ (VInt (timedelta_days now t)) (value self)
            | _ => Ok false
            end
        | _ => Ok false
        end
  end.

(** A computation that evaluates conditions: the conditions it has
    evaluated, in order, each with the attribute it was read from, and
    its outcome.  The log makes "was never evaluated" a statement about
    the run. *)
Definition traced (A : Type) : Type :=
  (list (origin * RecipeCondition) * result A)%type.

Definition ret {A} (a : A) : traced A := ([], Ok a).

Definition tbind {A B} (m : traced A) (k : A -> traced B) : traced B :=
  match m with
  | (log, Ok a) => let (log', r) := k a in (log ++ log', r)
  | (log, TypeError) => (log, TypeError)
  end.

Notation "'do' x <- m ; k" := (tbind m (fun x => k))
  (at level 10, x name, m at level 100, k at level 200).

Definition eval_condition (from : origin) (cond : RecipeCondition) (data : Dict)
  : traced bool :=
  ([(from, cond)], RecipeCondition_evaluate cond data).

(** [all(cond.evaluate(data) for cond in conds)]: the generator is
    consumed up to the first condition that is false. *)
Fixpoint all_conditions (from : origin) (conds : list RecipeCondition) (data : Dict)
  : traced bool :=
  match conds with
  | [] => ret true
  | cond :: rest =>
      do b <- eval_condition from cond data ;
      if b then all_conditions from rest data else ret false
  end.

(** [[cond for cond in conds if cond.evaluate(data)]] *)
Fixpoint conditions_met (from : origin) (conds : list RecipeCondition) (data : Dict)
  : traced (list RecipeCondition) :=
  match conds with
  | [] => ret []
  | cond :: rest =>
      do b <- eval_condition from cond data ;
      do met <- conditions_met from rest data ;
      ret (if b then cond :: met else met)
  end.

(** The scoring loop, from the values [total_score] and
    [scoring_details] have when it reaches [components]. *)
Fixpoint score_components (components : list ScoringComponent) (data : Dict)
    (total_score : Z) (scoring_details : list (string * Z))
  : traced (Z * list (string * Z)) :=
  match components with
  | [] => ret (total_score, scoring_details)
  | component :: rest =>
      do b <- eval_condition Component (condition component) data ;
      if b then
        score_components rest data (total_score + points component)
          (scoring_details ++ [(name component, points component)])
      else score_components rest data total_score scoring_details
  end.

(** [DataRecipe.evaluate] *)
Definition DataRecipe_evaluate (self : DataRecipe) (prospect_data : Dict)
  : traced Evaluation :=
  do required_met <- all_conditions Required (required_conditions self) prospect_data ;
  if negb required_met then
    ret {| matches := false;
           reason := Some "Required conditions not met";
           score := 0;
           threshold := score_threshold self;
           required_conditions_met := None;
           optional_conditions_met := None;
           scoring_details := None;
           res_output_segment := None |}
  else
    do optional_met <- conditions_met Optional (optional_conditions self) prospect_data ;
    do scored <- score_components (scoring_components self) prospect_data 0 [] ;
    let total_score := fst scored in
    let qualifies := Z.leb (score_threshold self) total_score in
    ret {| matches := qualifies;
           reason := None;
           score := total_score;
           threshold := score_threshold self;
           required_conditions_met := Some true;
           optional_conditions_met := Some (length optional_met);
           scoring_details := Some (snd scored);
           res_output_segment :=
             Some (if qualifies then Some (output_segment self) else None) |}.

End Evaluate.

(** The set [DataRecipe.get_required_sources] builds in its two loops.
    [if condition.source] passes for a source that is neither [None] nor
    the empty string. *)
Definition required_source_set (self : DataRecipe) : gset string :=
  let sources :=
    fold_left
      (fun (sources : gset string) ingredient =>
         if ingredient_required ingredient
         then {[ ingredient_source ingredient ]} ∪ sources
         else sources)
      (ingredients self) ∅ in
  fold_left
    (fun (sources : gset string) condition =>
       match source condition with
       | Some s => if String.eqb s "" then sources else {[ s ]} ∪ sources
       | None => sources
       end)
    (required_conditions self) sources.

(** [DataRecipe.get_required_sources]: [list(sources)], in the order the
    set yields its elements. *)
Definition get_required_sources (self : DataRecipe) : list string :=
  elements (required_source_set self).

End Recipes.

(** *** [DataRecipeBuilder] *)

Module RecipeBuilder.

(** The attributes of the builder.  A method updates them and returns the
    builder, so a chain of calls is a composition of updates. *)
Record DataRecipeBuilder : Type := {
  _name : string;
  _description : string;
  _target_outcome : string;
  _target_persona : string;
  _target_company_type : string;
  _timeframe : string;
  _ingredients : list Recipes.DataIngredient;
  _required_conditions : list Recipes.RecipeCondition;
  _optional_conditions : list Recipes.RecipeCondition;
  _scoring_components : list Recipes.ScoringComponent;
  _score_threshold : Z;
  _validation_steps : list Recipes.ValidationStep;
  _output_segment : string;
  _output_sequence : string
}.

(** [DataRecipeBuilder._reset]: the state it leaves, which is also the
    state [__init__] starts from. *)
Definition _reset : DataRecipeBuilder :=
  {| _name := ""; _description := ""; _target_outcome := "";
     _target_persona := ""; _target_company_type := ""; _timeframe := "";
     _ingredients := []; _required_conditions := [];
     _optional_conditions := []; _scoring_components := [];
     _score_threshold := 70; _validation_steps := [];
     _output_segment := ""; _output_sequence := "" |}.

Definition name (name : string) (self : DataRecipeBuilder) : DataRecipeBuilder :=
  {| _name := name; _description := _description self;
     _target_outcome := _target_outcome self;
     _target_persona := _target_persona self;
     _target_company_type := _target_company_type self;
     _timeframe := _timeframe self; _ingredients := _ingredients self;
     _required_conditions := _required_conditions self;
     _optional_conditions := _optional_conditions self;
     _scoring_components := _scoring_components self;
     _score_threshold := _score_threshold self;
     _validation_steps := _validation_steps self;
     _output_segment := _output_segment self;
     _output_sequence := _output_sequence self |}.

Definition description (description : string) (self : DataRecipeBuilder)
  : DataRecipeBuilder :=
  {| _name := _name self; _description := description;
     _target_outcome := _target_outcome self;
     _target_persona := _target_persona self;
     _target_company_type := _target_company_type self;
     _timeframe := _timeframe self; _ingredients := _ingredients self;
     _required_conditions := _required_conditions self;
     _optional_conditions := _optional_conditions self;
     _scoring_components := _scoring_components self;
     _score_threshold := _score_threshold self;
     _validation_steps := _validation_steps self;
     _output_segment := _output_segment self;
     _output_sequence := _output_sequence self |}.

Definition target_outcome (outcome : string) (self : DataRecipeBuilder)
  : DataRecipeBuilder :=
  {| _name := _name self; _description := _description self;
     _target_outcome := outcome;
     _target_persona := _target_persona self;
     _target_company_type := _target_company_type self;
     _timeframe := _timeframe self; _ingredients := _ingredients self;
     _required_conditions := _required_conditions self;
     _optional_conditions := _optional_conditions self;
     _scoring_components := _scoring_components self;
     _score_threshold := _score_threshold self;
     _validation_steps := _validation_steps self;
     _output_segment := _output_segment self;
     _output_sequence := _output_sequence self |}.

Definition target_persona (persona : string) (self : DataRecipeBuilder)
  : DataRecipeBuilder :=
  {| _name := _name self; _description := _description self;
     _target_outcome := _target_outcome self;
     _target_persona := persona;
     _target_company_type := _target_company_type self;
     _timeframe := _timeframe self; _ingredients := _ingredients self;
     _required_conditions := _required_conditions self;
     _optional_conditions := _optional_conditions self;
     _scoring_components := _scoring_components self;
     _score_threshold := _score_threshold self;
     _validation_steps := _validation_steps self;
     _output_segment := _output_segment self;
     _output_sequence := _output_sequence self |}.

Definition target_company_type (company_type : string) (self : DataRecipeBuilder)
  : DataRecipeBuilder :=
  {| _name := _name self; _description := _description self;
     _target_outcome := _target_outcome self;
     _target_persona := _target_persona self;
     _target_company_type := company_type;
     _timeframe := _timeframe self; _ingredients := _ingredients self;
     _required_conditions := _required_conditions self;
     _optional_conditions := _optional_conditions self;
     _scoring_components := _scoring_components self;
     _score_threshold := _score_threshold self;
     _validation_steps := _validation_steps self;
     _output_segment := _output_segment self;
     _output_sequence := _output_sequence self |}.

Definition timeframe (timeframe : string) (self : DataRecipeBuilder)
  : DataRecipeBuilder :=
  {| _name := _name self; _description := _description self;
     _target_outcome := _target_outcome self;
     _target_persona := _target_persona self;
     _target_company_type := _target_company_type self;
     _timeframe := timeframe; _ingredients := _ingredients self;
     _required_conditions := _required_conditions self;
     _optional_conditions := _optional_conditions self;
     _scoring_components := _scoring_components self;
     _score_threshold := _score_threshold self;
     _validation_steps := _validation_steps self;
     _output_segment := _output_segment self;
     _output_sequence := _output_sequence self |}.

Definition add_ingredient (source data_point signal_description : string)
    (required : bool) (self : DataRecipeBuilder) : DataRecipeBuilder :=
  {| _name := _name self; _description := _description self;
     _target_outcome := _target_outcome self;
     _target_persona := _target_persona self;
     _target_company_type := _target_company_type self;
     _timeframe := _timeframe self;
     _ingredients :=
       _ingredients self ++
       [ {| Recipes.ingredient_source := source;
            Recipes.data_point := data_point;
            Recipes.signal_description := signal_description;
            Recipes.ingredient_required := required;
            Recipes.fallback_sources := [] |} ];
     _required_conditions := _required_conditions self;
     _optional_conditions := _optional_conditions self;
     _scoring_components := _scoring_components self;
     _score_threshold := _score_threshold self;
     _validation_steps := _validation_steps self;
     _output_segment := _output_segment self;
     _output_sequence := _output_sequence self |}.

Definition add_condition (field : string) (operator : Recipes.ConditionOperator)
    (value : Value) (source : option string) (required : bool)
    (self : DataRecipeBuilder) : DataRecipeBuilder :=
  let condition :=
    {| Recipes.field := field; Recipes.operator := operator;
       Recipes.value := value; Recipes.source := source |} in
  {| _name := _name self; _description := _description self;
     _target_outcome := _target_outcome self;
     _target_persona := _target_persona self;
     _target_company_type := _target_company_type self;
     _timeframe := _timeframe self; _ingredients := _ingredients self;
     _required_conditions :=
       if required then _required_conditions self ++ [condition]
       else _required_conditions self;
     _optional_conditions :=
       if required then _optional_conditions self
       else _optional_conditions self ++ [condition];
     _scoring_components := _scoring_components self;
     _score_threshold := _score_threshold self;
     _validation_steps := _validation_steps self;
     _output_segment := _output_segment self;
     _output_sequence := _output_sequence self |}.

Definition add_scoring (name : string) (points : Z) (description : string)
    (field : string) (operator : Recipes.ConditionOperator) (value : Value)
    (weight_percentage : Q) (self : DataRecipeBuilder) : DataRecipeBuilder :=
  let condition :=
    {| Recipes.field := field; Recipes.operator := operator;
       Recipes.value := value; Recipes.source := None |} in
  {| _name := _name self; _description := _description self;
     _target_outcome := _target_outcome self;
     _target_persona := _target_persona self;
     _target_company_type := _target_company_type self;
     _timeframe := _timeframe self; _ingredients := _ingredients self;
     _required_conditions := _required_conditions self;
     _optional_conditions := _optional_conditions self;
     _scoring_components :=
       _scoring_components self ++
       [ {| Recipes.name := name; Recipes.description := description;
            Recipes.points := points;
            Recipes.weight_percentage := weight_percentage;
            Recipes.condition := condition |} ];
     _score_threshold := _score_threshold self;
     _validation_steps := _validation_steps self;
     _output_segment := _output_segment self;
     _output_sequence := _output_sequence self |}.

Definition score_threshold (threshold : Z) (self : DataRecipeBuilder)
  : DataRecipeBuilder :=
  {| _name := _name self; _description := _description self;
     _target_outcome := _target_outcome self;
     _target_persona := _target_persona self;
     _target_company_type := _target_company_type self;
     _timeframe := _timeframe self; _ingredients := _ingredients self;
     _required_conditions := _required_conditions self;
     _optional_conditions := _optional_conditions self;
     _scoring_components := _scoring_components self;
     _score_threshold := threshold;
     _validation_steps := _validation_steps self;
     _output_segment := _output_segment self;
     _output_sequence := _output_sequence self |}.

Definition add_validation_step (description verification_method : string)
    (required : bool) (self : DataRecipeBuilder) : DataRecipeBuilder :=
  {| _name := _name self; _description := _description self;
     _target_outcome := _target_outcome self;
     _target_persona := _target_persona self;
     _target_company_type := _target_company_type self;
     _timeframe := _timeframe self; _ingredients := _ingredients self;
     _required_conditions := _required_conditions self;
     _optional_conditions := _optional_conditions self;
     _scoring_components := _scoring_components self;
     _score_threshold := _score_threshold self;
     _validation_steps :=
       _validation_steps self ++
       [ {| Recipes.validation_description := description;
            Recipes.verification_method := verification_method;
            Recipes.validation_required := required |} ];
     _output_segment := _output_segment self;
     _output_sequence := _output_sequence self |}.

Definition output (segment sequence : string) (self : DataRecipeBuilder)
  : DataRecipeBuilder :=
  {| _name := _name self; _description := _description self;
     _target_outcome := _target_outcome self;
     _target_persona := _target_persona self;
     _target_company_type := _target_company_type self;
     _timeframe := _timeframe self; _ingredients := _ingredients self;
     _required_conditions := _required_conditions self;
     _optional_conditions := _optional_conditions self;
     _scoring_components := _scoring_components self;
     _score_threshold := _score_threshold self;
     _validation_steps := _validation_steps self;
     _output_segment := segment;
     _output_sequence := sequence |}.

(** [DataRecipeBuilder.build]: the recipe, and the builder after
    [self._reset()].  The lists handed to the recipe are not touched again:
    [_reset] binds the attributes to new lists. *)
Definition build (self : DataRecipeBuilder) : Recipes.DataRecipe * DataRecipeBuilder :=
  ({| Recipes.recipe_name := _name self;
      Recipes.recipe_description := _description self;
      Recipes.target_outcome := _target_outcome self;
      Recipes.target_persona := _target_persona self;
      Recipes.target_company_type := _target_company_type self;
      Recipes.timeframe := _timeframe self;
      Recipes.ingredients := _ingredients self;
      Recipes.required_conditions := _required_conditions self;
      Recipes.optional_conditions := _optional_conditions self;
      Recipes.scoring_components := _scoring_components self;
      Recipes.score_threshold := _score_threshold self;
      Recipes.validation_steps := _validation_steps self;
      Recipes.output_segment := _output_segment self;
      Recipes.output_sequence := _output_sequence self;
      Recipes.version := "1.0.0";
      Recipes.author := "" |},
   _reset).

(** A chain [builder.f(...).g(...)] reads left to right. *)
Notation "b |. f" := (f b) (at level 50, left associativity, only parsing).

(** [create_deadline_collision_recipe] *)
Definition create_deadline_collision_recipe : Recipes.DataRecipe :=
  fst (_reset
    |. name "Deadline Collision"
    |. description "Companies facing deadline pressure with resource/capability gaps"
    |. target_outcome "Identify companies with upcoming compliance or contract deadlines that show hiring or technology gaps"
    |. target_persona "VP of Ops, CISO, Compliance Lead"
    |. target_company_type "Mid-market companies with government contracts or compliance requirements"
    |. timeframe "Deadline within 90 days"
    |. add_ingredient "sam_gov" "contract_deadline" "Government contract with upcoming deadline" true
    |. add_ingredient "linkedin_jobs" "compliance_roles" "Posted compliance-related job in last 30 days" true
    |. add_ingredient "builtwith" "tech_stack" "Current technology stack" true
    |. add_condition "days_to_deadline" Recipes.LESS_THAN (VInt 90) (Some "sam_gov") true
    |. add_condition "has_relevant_posting" Recipes.EQUALS (VBool true) (Some "linkedin_jobs") true
    |. add_condition "employee_count" Recipes.GREATER_THAN (VInt 50) None true
    |. add_scoring "deadline_urgency" 30 "Deadline urgency" "days_to_deadline" Recipes.LESS_THAN (VInt 60) 0
    |. add_scoring "hiring_signal" 25 "Recent hiring signal" "posting_age_days" Recipes.LESS_THAN (VInt 14) 0
    |. add_scoring "tech_gap" 25 "Technology gap identified" "has_tech_gap" Recipes.EQUALS (VBool true) 0
    |. add_scoring "company_fit" 20 "Company size fit" "employee_count" Recipes.GREATER_THAN (VInt 100) 0
    |. score_threshold 70
    |. add_validation_step "Verify deadline date in SAM.gov" "Manual check of contract record" true
    |. add_validation_step "Confirm job posting is still active" "Visit LinkedIn job page" true
    |. output "deadline_pressure_segment" "urgent_deadline_sequence"
    |. build).

(** [create_growth_pressure_recipe]; the literals [0.2] and [0.3] are the
    doubles nearest to them. *)
Definition create_growth_pressure_recipe : Recipes.DataRecipe :=
  fst (_reset
    |. name "Growth Pressure"
    |. description "Companies with recent funding experiencing rapid growth strain"
    |. target_outcome "Identify recently funded companies with hiring surge and infrastructure gaps"
    |. target_persona "VP of Engineering, CTO, Head of Operations"
    |. target_company_type "Series A-C startups in growth phase"
    |. timeframe "Funding within last 6 months"
    |. add_ingredient "crunchbase" "funding_round" "Recent funding event" true
    |. add_ingredient "linkedin_company" "employee_growth" "Employee count growth" true
    |. add_ingredient "linkedin_jobs" "open_roles" "Current open positions" true
    |. add_condition "months_since_funding" Recipes.LESS_THAN (VInt 6) (Some "crunchbase") true
    |. add_condition "employee_growth_rate" Recipes.GREATER_THAN
         (VFloat (3602879701896397 # 18014398509481984)) (Some "linkedin_company") true
    |. add_condition "open_positions" Recipes.GREATER_THAN (VInt 5) (Some "linkedin_jobs") true
    |. add_scoring "funding_recency" 30 "Recent funding" "months_since_funding" Recipes.LESS_THAN (VInt 3) 0
    |. add_scoring "growth_rate" 25 "High growth rate" "employee_growth_rate" Recipes.GREATER_THAN
         (VFloat (5404319552844595 # 18014398509481984)) 0
    |. add_scoring "hiring_volume" 25 "Aggressive hiring" "open_positions" Recipes.GREATER_THAN (VInt 10) 0
    |. add_scoring "funding_size" 20 "Significant funding" "funding_amount" Recipes.GREATER_THAN (VInt 10000000) 0
    |. score_threshold 70
    |. add_validation_step "Verify funding announcement" "Check Crunchbase or press release" true
    |. add_validation_step "Confirm employee count trend" "Review LinkedIn company page" true
    |. output "growth_pressure_segment" "growth_support_sequence"
    |. build).

End RecipeBuilder.

(** ** Scoring ([clayworks/core/scoring.py]) *)

Module Scoring.

Inductive ScoreCategory : Type :=
| OBLIGATION_URGENCY
| HIRING_SIGNAL
| TECHNOLOGY_GAP
| COMPANY_FIT
| TIMING
| ENGAGEMENT.

(** [category.value] *)
Definition category_value (c : ScoreCategory) : string :=
  match c with
  | OBLIGATION_URGENCY => "obligation_urgency"
  | HIRING_SIGNAL => "hiring_signal"
  | TECHNOLOGY_GAP => "technology_gap"
  | COMPANY_FIT => "company_fit"
  | TIMING => "timing"
  | ENGAGEMENT => "engagement"
  end.

(** The guard and the point function are the caller's; they are taken as
    the functions their annotations declare. *)
Record ScoringRule : Type := {
  name : string;
  category : ScoreCategory;
  description : string;
  max_points : Z;
  condition : Dict -> bool;
  score_function : Dict -> Z;
  weight : Q
}.

(** The dictionary [ScoringRule.evaluate] returns. *)
Record RuleResult : Type := {
  applies : bool;
  raw_score : Z;
  weighted_score : Z;
  rule_name : string;
  result_category : string
}.

(** [int(x)]: the fraction is dropped, rounding toward zero. *)
Definition int_of (x : Q) : Z := Z.quot (Qnum x) (Zpos (Qden x)).

(** [ScoringRule.evaluate] *)
Definition ScoringRule_evaluate (self : ScoringRule) (prospect_data : Dict) : RuleResult :=
  if condition self prospect_data then
    let raw_score := score_function self prospect_data in
    let weighted_score := int_of (inject_Z raw_score * weight self)%Q in
    {| applies := true;
       raw_score := raw_score;
       weighted_score := Z.min weighted_score (max_points self);
       rule_name := name self;
       result_category := category_value (category self) |}
  else
    {| applies := false;
       raw_score := 0;
       weighted_score := 0;
       rule_name := name self;
       result_category := category_value (category self) |}.

Record ProspectScore : Type := {
  prospect_id : Value;
  total_score : Z;
  max_possible : Z;
  category_scores : gmap string Z;
  rule_results : list RuleResult;
  qualifies : bool;
  threshold_used : Z;
  confidence : Q
}.

(** [weights] is the dict from category to weight; a category without an
    entry is [None]. *)
Record ProspectScorer : Type := {
  threshold : Z;
  rules : list ScoringRule;
  weights : ScoreCategory -> option Q
}.

(** [ProspectScorer.__init__] with the default arguments. *)
Definition new_scorer (threshold : Z) : ProspectScorer :=
  {| threshold := threshold; rules := []; weights := fun _ => Some 1%Q |}.

(** [ProspectScorer.add_rule] *)
Definition add_rule (self : ProspectScorer) (rule : ScoringRule) : ProspectScorer :=
  {| threshold := threshold self;
     rules := rules self ++ [rule];
     weights := weights self |}.

(** [ProspectScorer.create_rule]: the new rule and the scorer that holds it. *)
Definition create_rule (self : ProspectScorer) (name : string)
    (category : ScoreCategory) (description : string) (max_points : Z)
    (condition : Dict -> bool) (score_function : Dict -> Z)
  : ScoringRule * ProspectScorer :=
  let weight := default 1%Q (weights self category) in
  let rule :=
    {| name := name; category := category; description := description;
       max_points := max_points; condition := condition;
       score_function := score_function; weight := weight |} in
  (rule, add_rule self rule).

Definition key_fields : list string :=
  [ "company_name"; "employee_count"; "industry"; "tech_stack";
    "recent_job_postings"; "funding_stage"; "compliance_requirements" ].

(** [ProspectScorer._calculate_data_completeness] *)
Definition _calculate_data_completeness (prospect_data : Dict) : Q :=
  let present :=
    length (List.filter (fun f => truthy (dict_get prospect_data f)) key_fields) in
  (inject_Z (Z.of_nat present) / inject_Z (Z.of_nat (length key_fields)))%Q.

(** The four variables the loop of [score_prospect] updates. *)
Record Tally : Type := {
  t_rule_results : list RuleResult;
  t_category_scores : gmap string Z;
  t_total_score : Z;
  t_max_possible : Z
}.

Definition tally0 : Tally :=
  {| t_rule_results := []; t_category_scores := ∅;
     t_total_score := 0; t_max_possible := 0 |}.

(** One iteration of [for rule in self.rules]. *)
Definition score_rule (prospect_data : Dict) (t : Tally) (rule : ScoringRule) : Tally :=
  let result := ScoringRule_evaluate rule prospect_data in
  let rule_results := t_rule_results t ++ [result] in
  let max_possible := t_max_possible t + max_points rule in
  if applies result then
    let score := weighted_score result in
    let category := result_category result in
    {| t_rule_results := rule_results;
       t_category_scores :=
         <[ category := default 0 (t_category_scores t !! category) + score ]>
           (t_category_scores t);
       t_total_score := t_total_score t + score;
       t_max_possible := max_possible |}
  else
    {| t_rule_results := rule_results;
       t_category_scores := t_category_scores t;
       t_total_score := t_total_score t;
       t_max_possible := max_possible |}.

(** [ProspectScorer.score_prospect] *)
Definition score_prospect (self : ProspectScorer) (prospect_id : Value)
    (prospect_data : Dict) : ProspectScore :=
  let t := fold_left (score_rule prospect_data) (rules self) tally0 in
  let data_completeness := _calculate_data_completeness prospect_data in
  let confidence :=
    (data_completeness *
       (if Z.ltb 0 (t_max_possible t)
        then inject_Z (t_total_score t) / inject_Z (t_max_possible t)
        else 0))%Q in
  {| prospect_id := prospect_id;
     total_score := t_total_score t;
     max_possible := t_max_possible t;
     category_scores := t_category_scores t;
     rule_results := t_rule_results t;
     qualifies := Z.leb (threshold self) (t_total_score t);
     threshold_used := threshold self;
     confidence := confidence |}.

(** [scores.sort(key=..., reverse=True)]: Python's sort is stable, also
    with [reverse=True]; an element goes in front of the first element
    whose key is not larger than its own.  [insert_desc x l] places [x],
    which preceded every element of [l] in the input. *)
Fixpoint insert_desc {A} (key : A -> Z) (x : A) (l : list A) : list A :=
  match l with
  | [] => [x]
  | y :: l' =>
      if Z.leb (key y) (key x) then x :: y :: l'
      else y :: insert_desc key x l'
  end.

Definition sort_desc {A} (key : A -> Z) (l : list A) : list A :=
  fold_right (insert_desc key) [] l.

(** The loop of [score_batch], from the value [scores] has when it
    reaches [prospects]. *)
Fixpoint score_each (self : ProspectScorer) (id_field : string)
    (prospects : list Dict) (scores : list ProspectScore) : list ProspectScore :=
  match prospects with
  | [] => scores
  | prospect :: rest =>
      let prospect_id :=
        match prospect !! id_field with
        | Some v => v
        | None => VStr (str_nat (length scores))
        end in
      let score := score_prospect self prospect_id prospect in
      score_each self id_field rest (scores ++ [score])
  end.

(** [ProspectScorer.score_batch] *)
Definition score_batch (self : ProspectScorer) (prospects : list Dict)
    (id_field : string) : list ProspectScore :=
  let scores := score_each self id_field prospects [] in
  sort_desc total_score scores.

(** [ProspectScore.score_percentage] *)
Definition score_percentage (self : ProspectScore) : Q :=
  if Z.ltb 0 (max_possible self)
  then (inject_Z (total_score self) / inject_Z (max_possible self) * 100)%Q
  else 0%Q.

(** [ProspectScorer.get_qualified_prospects] *)
Definition get_qualified_prospects (self : ProspectScorer) (prospects : list Dict)
    (id_field : string) : list ProspectScore :=
  let scores := score_batch self prospects id_field in
  List.filter qualifies scores.

End Scoring.

(** ** Enrichment ([clayworks/data/enrichment.py]) *)

Module Enrichment.

Inductive EnrichmentStatus : Type :=
| PENDING
| IN_PROGRESS
| COMPLETED
| FAILED
| SKIPPED.

Definition status_eqb (a b : EnrichmentStatus) : bool :=
  match a, b with
  | PENDING, PENDING | IN_PROGRESS, IN_PROGRESS | COMPLETED, COMPLETED
  | FAILED, FAILED | SKIPPED, SKIPPED => true
  | _, _ => false
  end.

Record EnrichmentResult : Type := {
  step_name : string;
  status : EnrichmentStatus;
  data : option Dict;
  error : option string
}.

(** What one call of a fetch function does: it returns a field map, or it
    raises an exception [e], kept as the text [str(e)]. *)
Inductive fetched : Type :=
| Returns (fields : Dict)
| Raises (message : string).

(** A fetch function reads the world, so a second call on the same input
    may end differently: it is a function of its input and of the number
    of calls the current [execute] has already made. *)
Record EnrichmentStep : Type := {
  name : string;
  source_name : string;
  fields_to_fetch : list string;
  fetch_function : Dict -> nat -> fetched;
  required : bool;
  depends_on : list string;
  timeout_seconds : Z;
  retry_count : Z;
  enabled : bool
}.

(** The [while retries <= self.retry_count] loop of [execute], with
    [remaining] iterations left. *)
Fixpoint attempt (self : EnrichmentStep) (input_data : Dict) (remaining : nat)
    (retries : nat) (last_error : option string) : EnrichmentResult :=
  match remaining with
  | O =>
      {| step_name := name self; status := FAILED;
         data := None; error := last_error |}
  | S remaining' =>
      match fetch_function self input_data retries with
      | Returns fields =>
          {| step_name := name self; status := COMPLETED;
             data := Some fields; error := None |}
      | Raises e => attempt self input_data remaining' (S retries) (Some e)
      end
  end.

(** [EnrichmentStep.execute].  The loop runs for [retries = 0, 1, ...,
    retry_count], that is [retry_count + 1] times, and not at all when
    [retry_count] is negative. *)
Definition execute (self : EnrichmentStep) (input_data : Dict) : EnrichmentResult :=
  if negb (enabled self) then
    {| step_name := name self; status := SKIPPED; data := None; error := None |}
  else
    attempt self input_data (Z.to_nat (retry_count self + 1)) 0 None.

Record ProspectRecord : Type := {
  prospect_id : Value;
  initial_data : Dict;
  enriched_data : Dict;
  enrichment_results : list EnrichmentResult
}.

(** [if result.data]: the data is there and is not the empty dict. *)
Definition has_data (result : EnrichmentResult) : option Dict :=
  match data result with
  | Some d => if decide (d = ∅) then None else Some d
  | None => None
  end.

(** [ProspectRecord.merge_enrichment]; [enriched_data.update(d)] lets the
    keys of [d] win. *)
Definition merge_enrichment (self : ProspectRecord) (result : EnrichmentResult)
  : ProspectRecord :=
  let results := enrichment_results self ++ [result] in
  let enriched :=
    match status_eqb (status result) COMPLETED, has_data result with
    | true, Some d => d ∪ enriched_data self
    | _, _ => enriched_data self
    end in
  {| prospect_id := prospect_id self;
     initial_data := initial_data self;
     enriched_data := enriched;
     enrichment_results := results |}.

(** [ProspectRecord.all_data]: [{**initial_data, **enriched_data}] *)
Definition all_data (self : ProspectRecord) : Dict :=
  enriched_data self ∪ initial_data self.

(** [ProspectRecord.enrichment_complete] *)
Definition enrichment_complete (self : ProspectRecord) : bool :=
  forallb
    (fun r => status_eqb (status r) COMPLETED || status_eqb (status r) SKIPPED)
    (enrichment_results self).

Record EnrichmentPipeline : Type := {
  pipeline_name : string;
  steps : list EnrichmentStep;
  _step_order : list string
}.

(** [EnrichmentPipeline.__init__] *)
Definition new_pipeline (name : string) : EnrichmentPipeline :=
  {| pipeline_name := name; steps := []; _step_order := [] |}.

(** [next((s for s in steps if s.name == name), None)] *)
Definition find_step (steps : list EnrichmentStep) (step_name : string)
  : option EnrichmentStep :=
  List.find (fun s => String.eqb (name s) step_name) steps.

(** [EnrichmentPipeline.get_step] *)
Definition get_step (self : EnrichmentPipeline) (step_name : string)
  : option EnrichmentStep :=
  find_step (steps self) step_name.

(** The two variables [visit] closes over: the set [visited] and the
    list [order]. *)
Definition visit_state : Type := (gset string * list string)%type.

(** [for n in names: f(n)], where [f] updates the state or runs out of
    fuel. *)
Fixpoint for_each (f : string -> visit_state -> option visit_state)
    (names : list string) (st : visit_state) : option visit_state :=
  match names with
  | [] => Some st
  | n :: rest =>
      match f n st with
      | Some st' => for_each f rest st'
      | None => None
      end
  end.

(** The inner function [visit] of [_recalculate_order].  Its recursion
    follows dependency edges and is bounded by [fuel]; [None] means the
    fuel ran out. *)
Fixpoint visit (fuel : nat) (steps : list EnrichmentStep) (step_name : string)
    (st : visit_state) : option visit_state :=
  match fuel with
  | O => None
  | S fuel' =>
      let (visited, order) := st in
      if decide (step_name ∈ visited) then Some st
      else
        let visited := {[ step_name ]} ∪ visited in
        match find_step steps step_name with
        | Some step =>
            match for_each (visit fuel' steps) (depends_on step) (visited, order) with
            | Some (visited', order') => Some (visited', order' ++ [step_name])
            | None => None
            end
        | None => Some (visited, order)
        end
  end.

(** The whole traversal: [for step in self.steps: visit(step.name)] from
    the empty set and the empty list.  A call of [visit] nests at most
    once per step, and once more for a name that is no step, so
    [length steps + 1] levels are enough (lemma [traverse_returns]). *)
Definition traverse (steps : list EnrichmentStep) : option visit_state :=
  for_each (visit (S (length steps)) steps) (map name steps) (∅, []).

(** [EnrichmentPipeline._recalculate_order] *)
Definition _recalculate_order (self : EnrichmentPipeline) : EnrichmentPipeline :=
  match traverse (steps self) with
  | Some (_, order) =>
      {| pipeline_name := pipeline_name self;
         steps := steps self;
         _step_order := order |}
  | None => self
  end.

(** [EnrichmentPipeline.add_step] *)
Definition add_step (self : EnrichmentPipeline) (step : EnrichmentStep)
  : EnrichmentPipeline :=
  _recalculate_order
    {| pipeline_name := pipeline_name self;
       steps := steps self ++ [step];
       _step_order := _step_order self |}.

(** The dependency check of [enrich]. *)
Definition deps_met (step : EnrichmentStep) (record : ProspectRecord) : bool :=
  forallb
    (fun dep =>
       existsb
         (fun r => String.eqb (step_name r) dep && status_eqb (status r) COMPLETED)
         (enrichment_results record))
    (depends_on step).

(** The loop [for step_name in self._step_order] of [enrich], from the
    value [record] has when it reaches [order].  [break] ends the loop
    with the record as it is. *)
Fixpoint enrich_from (self : EnrichmentPipeline) (order : list string)
    (record : ProspectRecord) : ProspectRecord :=
  match order with
  | [] => record
  | step_name :: rest =>
      match get_step self step_name with
      | None => enrich_from self rest record
      | Some step =>
          if negb (deps_met step record) then
            let result :=
              {| step_name := name step; status := SKIPPED;
                 data := None; error := Some "Dependencies not met" |} in
            enrich_from self rest
              {| prospect_id := prospect_id record;
                 initial_data := initial_data record;
                 enriched_data := enriched_data record;
                 enrichment_results := enrichment_results record ++ [result] |}
          else
            let result := execute step (all_data record) in
            let record := merge_enrichment record result in
            if required step && status_eqb (status result) FAILED then record
            else enrich_from self rest record
      end
  end.

(** [EnrichmentPipeline.enrich] *)
Definition enrich (self : EnrichmentPipeline) (prospect_id : Value)
    (initial_data : Dict) : ProspectRecord :=
  enrich_from self (_step_order self)
    {| prospect_id := prospect_id;
       initial_data := initial_data;
       enriched_data := ∅;
       enrichment_results := [] |}.

(** The list comprehension of [enrich_batch], from the index [i] on. *)
Fixpoint enrich_each (self : EnrichmentPipeline) (id_field : string) (i : nat)
    (prospects : list Dict) : list ProspectRecord :=
  match prospects with
  | [] => []
  | p :: rest =>
      let prospect_id :=
        match p !! id_field with
        | Some v => v
        | None => VStr (str_nat i)
        end in
      enrich self prospect_id p :: enrich_each self id_field (S i) rest
  end.

(** [EnrichmentPipeline.enrich_batch] with [parallel=False].  The other
    branch hands the same calls to a thread pool and is not modelled. *)
Definition enrich_batch_sequential (self : EnrichmentPipeline)
    (prospects : list Dict) (id_field : string) : list ProspectRecord :=
  enrich_each self id_field 0 prospects.

(** An entry of [stats["step_stats"]].  [avg_duration_seconds] is computed
    from the timestamps and is left out with them. *)
Record StepStats : Type := {
  completed : Z;
  failed : Z;
  skipped : Z;
  success_rate : Q
}.

Record PipelineStats : Type := {
  total_prospects : Z;
  fully_enriched : Z;
  step_stats : gmap string StepStats
}.

(** [sum(1 for r in results if r.status == wanted)] *)
Definition count_status (wanted : EnrichmentStatus) (results : list EnrichmentResult) : Z :=
  Z.of_nat (length (List.filter (fun r => status_eqb (status r) wanted) results)).

(** [[r for record in records for r in record.enrichment_results
      if r.step_name == step.name]] *)
Definition results_named (step_name_ : string) (records : list ProspectRecord)
  : list EnrichmentResult :=
  flat_map
    (fun record =>
       List.filter (fun r => String.eqb (step_name r) step_name_)
         (enrichment_results record))
    records.

(** The entry [get_pipeline_stats] stores for [step]. *)
Definition stats_of (records : list ProspectRecord) (step : EnrichmentStep) : StepStats :=
  let step_results := results_named (name step) records in
  let completed := count_status COMPLETED step_results in
  {| completed := completed;
     failed := count_status FAILED step_results;
     skipped := count_status SKIPPED step_results;
     success_rate :=
       match step_results with
       | [] => 0%Q
       | _ => (inject_Z completed / inject_Z (Z.of_nat (length step_results)))%Q
       end |}.

(** [EnrichmentPipeline.get_pipeline_stats] *)
Definition get_pipeline_stats (self : EnrichmentPipeline)
    (records : list ProspectRecord) : PipelineStats :=
  {| total_prospects := Z.of_nat (length records);
     fully_enriched := Z.of_nat (length (List.filter enrichment_complete records));
     step_stats :=
       fold_left
         (fun (stats : gmap string StepStats) step =>
            <[ name step := stats_of records step ]> stats)
         (steps self) ∅ |}.

(** [create_default_pipeline] *)
Definition create_default_pipeline : EnrichmentPipeline :=
  let pipeline := new_pipeline "default" in
  let pipeline :=
    add_step pipeline
      {| name := "company_basics"; source_name := "clearbit";
         fields_to_fetch :=
           ["domain"; "name"; "industry"; "employee_count"; "founded_year"];
         fetch_function := fun _ _ => Returns {[ "company_enriched" := VBool true ]};
         required := true; depends_on := [];
         timeout_seconds := 30; retry_count := 3; enabled := true |} in
  let pipeline :=
    add_step pipeline
      {| name := "tech_stack"; source_name := "builtwith";
         fields_to_fetch := ["technologies"; "tech_categories"];
         fetch_function := fun _ _ => Returns {[ "tech_enriched" := VBool true ]};
         required := false; depends_on := ["company_basics"];
         timeout_seconds := 30; retry_count := 3; enabled := true |} in
  let pipeline :=
    add_step pipeline
      {| name := "job_postings"; source_name := "linkedin_jobs";
         fields_to_fetch := ["open_positions"; "role_types"; "posting_dates"];
         fetch_function := fun _ _ => Returns {[ "jobs_enriched" := VBool true ]};
         required := false; depends_on := ["company_basics"];
         timeout_seconds := 30; retry_count := 3; enabled := true |} in
  let pipeline :=
    add_step pipeline
      {| name := "funding_data"; source_name := "crunchbase";
         fields_to_fetch := ["funding_rounds"; "total_funding"; "last_funding_date"];
         fetch_function := fun _ _ => Returns {[ "funding_enriched" := VBool true ]};
         required := false; depends_on := ["company_basics"];
         timeout_seconds := 30; retry_count := 3; enabled := true |} in
  add_step pipeline
    {| name := "reviews"; source_name := "g2";
       fields_to_fetch := ["rating"; "review_count"; "sentiment"];
       fetch_function := fun _ _ => Returns {[ "reviews_enriched" := VBool true ]};
       required := false; depends_on := ["company_basics"];
       timeout_seconds := 30; retry_count := 3; enabled := true |}.

End Enrichment.

(** ** Notions the properties are stated with *)

Module RecipeNotions.
Import Recipes.

(** The ordering operator a condition operator applies, if any. *)
Definition ordering_of (op : ConditionOperator) : option ordering :=
  match op with
  | GREATER_THAN => Some Gt_
  | LESS_THAN => Some Lt_
  | GREATER_OR_EQUAL => Some Ge_
  | LESS_OR_EQUAL => Some Le_
  | _ => None
  end.

(** The dictionary of the early return of [DataRecipe.evaluate]. *)
Definition rejection (thr : Z) : Evaluation :=
  {| matches := false;
     reason := Some "Required conditions not met";
     score := 0;
     threshold := thr;
     required_conditions_met := None;
     optional_conditions_met := None;
     scoring_details := None;
     res_output_segment := None |}.

(** The operator that negates [op], for the operators that have one. *)
Definition negation_of (op : ConditionOperator) : option ConditionOperator :=
  match op with
  | EQUALS => Some NOT_EQUALS
  | CONTAINS => Some NOT_CONTAINS
  | IN_LIST => Some NOT_IN_LIST
  | EXISTS => Some NOT_EXISTS
  | _ => None
  end.

(** The ordering operator that holds exactly when [op] does not. *)
Definition complement_of (op : ConditionOperator) : option ConditionOperator :=
  match op with
  | GREATER_THAN => Some LESS_OR_EQUAL
  | LESS_THAN => Some GREATER_OR_EQUAL
  | GREATER_OR_EQUAL => Some LESS_THAN
  | LESS_OR_EQUAL => Some GREATER_THAN
  | _ => None
  end.

(** The condition [c] with another operator. *)
Definition with_operator (c : RecipeCondition) (op : ConditionOperator)
  : RecipeCondition :=
  {| field := field c; operator := op; value := value c; source := source c |}.

(** [not r], where [r] may have raised. *)
Definition negated (r : result bool) : result bool :=
  bind r (fun b => Ok (negb b)).

(** The outcome is [True]. *)
Definition is_true (r : result bool) : bool :=
  match r with Ok true => true | _ => false end.

(** The conditions of [conds] that hold on [data]. *)
Definition holding (render : Value -> string) (now : Z) (data : Dict)
    (conds : list RecipeCondition) : list RecipeCondition :=
  List.filter (fun c => is_true (RecipeCondition_evaluate render now c data)) conds.

(** The components whose condition holds on [data]. *)
Definition triggered (render : Value -> string) (now : Z) (data : Dict)
    (components : list ScoringComponent) : list ScoringComponent :=
  List.filter
    (fun comp => is_true (RecipeCondition_evaluate render now (condition comp) data))
    components.

Definition total_points (components : list ScoringComponent) : Z :=
  fold_right (fun comp acc => points comp + acc) 0 components.

(** The most a record can score: the sum of the positive point values. *)
Definition attainable_points (components : list ScoringComponent) : Z :=
  fold_right (fun comp acc => Z.max 0 (points comp) + acc) 0 components.

(** The dictionary of the final return of [DataRecipe.evaluate], for a
    record on which [optional] conditions and [hit] components hold. *)
Definition acceptance (self : DataRecipe) (optional : list RecipeCondition)
    (hit : list ScoringComponent) : Evaluation :=
  let total := total_points hit in
  let qualifies := Z.leb (score_threshold self) total in
  {| matches := qualifies;
     reason := None;
     score := total;
     threshold := score_threshold self;
     required_conditions_met := Some true;
     optional_conditions_met := Some (length optional);
     scoring_details := Some (map (fun comp => (name comp, points comp)) hit);
     res_output_segment :=
       Some (if qualifies then Some (output_segment self) else None) |}.

(** One call of [DataRecipeBuilder.add_condition]. *)
Record condition_call : Type := {
  call_field : string;
  call_operator : ConditionOperator;
  call_value : Value;
  call_source : option string;
  call_required : bool
}.

Definition condition_of (call : condition_call) : RecipeCondition :=
  {| field := call_field call; operator := call_operator call;
     value := call_value call; source := call_source call |}.

(** The builder after the calls [calls], made in order. *)
Definition add_conditions (calls : list condition_call)
    (b : RecipeBuilder.DataRecipeBuilder) : RecipeBuilder.DataRecipeBuilder :=
  fold_left
    (fun b call =>
       RecipeBuilder.add_condition (call_field call) (call_operator call)
         (call_value call) (call_source call) (call_required call) b)
    calls b.

End RecipeNotions.

Module ScoringNotions.
Import Scoring.

Definition sum_Z (l : list Z) : Z := fold_right Z.add 0 l.

(** What a rule adds to [total_score]. *)
Definition contribution (rule : ScoringRule) (data : Dict) : Z :=
  let result := ScoringRule_evaluate rule data in
  if applies result then weighted_score result else 0.

(** The prospect id [score_batch] gives the record at position [i]. *)
Definition id_at (id_field : string) (i : nat) (prospect : Dict) : Value :=
  match prospect !! id_field with
  | Some v => v
  | None => VStr (str_nat i)
  end.

(** The scores of a batch before sorting, from position [i] on. *)
Fixpoint scores_from (self : ProspectScorer) (id_field : string) (i : nat)
    (prospects : list Dict) : list ProspectScore :=
  match prospects with
  | [] => []
  | p :: rest =>
      score_prospect self (id_at id_field i p) p
        :: scores_from self id_field (S i) rest
  end.

(** Descending by [key]. *)
Definition descending {A} (key : A -> Z) (l : list A) : Prop :=
  Sorted (fun a b => key b <= key a) l.

Definition all_categories : list ScoreCategory :=
  [OBLIGATION_URGENCY; HIRING_SIGNAL; TECHNOLOGY_GAP; COMPANY_FIT; TIMING; ENGAGEMENT].

(** The guard of [rule] applies on [data] and its category has the value
    [key]. *)
Definition applies_in (key : string) (data : Dict) (rule : ScoringRule) : bool :=
  condition rule data && String.eqb (category_value (category rule)) key.

(** What the rules of the category with value [key] add to the total. *)
Definition category_sum (key : string) (data : Dict) (rules : list ScoringRule) : Z :=
  sum_Z
    (map
       (fun rule =>
          if String.eqb (category_value (category rule)) key
          then contribution rule data else 0)
       rules).

(** The scorer with another threshold. *)
Definition with_threshold (self : ProspectScorer) (t : Z) : ProspectScorer :=
  {| threshold := t; rules := rules self; weights := weights self |}.

(** A score with the flag and the threshold of another threshold. *)
Definition rejudged (t : Z) (s : ProspectScore) : ProspectScore :=
  {| prospect_id := prospect_id s;
     total_score := total_score s;
     max_possible := max_possible s;
     category_scores := category_scores s;
     rule_results := rule_results s;
     qualifies := Z.leb t (total_score s);
     threshold_used := t;
     confidence := confidence s |}.

Definition id_and_total (s : ProspectScore) : Value * Z :=
  (prospect_id s, total_score s).

End ScoringNotions.

Module EnrichmentNotions.
Import Enrichment.

(** [d] occurs in [order] at a position before an occurrence of [n]. *)
Definition before (order : list string) (d n : string) : Prop :=
  exists l1 l2 l3, order = l1 ++ d :: l2 ++ n :: l3.

Section Steps.
Variable steps : list EnrichmentStep.

(** [n] names a step. *)
Definition is_step (n : string) : Prop := is_Some (find_step steps n).

(** The names of the steps. *)
Definition step_names : gset string := list_to_set (map name steps).

(** How many step names are still to be visited. *)
Definition unvisited (st : visit_state) : nat := size (step_names ∖ st.1).

(** What holds of the state between two calls of [visit]: the order lists
    visited names, each once. *)
Definition well_formed (st : visit_state) : Prop :=
  (forall n, In n st.2 -> n ∈ st.1 /\ is_step n) /\ NoDup st.2.

(** What one call, or a run of calls, does to the state: it appends names
    that were not visited before, and every step name it visits ends up in
    the order. *)
Definition extends (st st' : visit_state) : Prop :=
  st.1 ⊆ st'.1 /\
  (exists new, st'.2 = st.2 ++ new /\ forall m, In m new -> m ∉ st.1) /\
  (forall m, m ∈ st'.1 -> m ∉ st.1 -> is_step m -> In m st'.2) /\
  (well_formed st -> well_formed st').

Variable rank : string -> nat.

(** In the order so far, the dependencies of each name precede it. *)
Definition deps_first (st : visit_state) : Prop :=
  forall n s d,
    In n st.2 -> find_step steps n = Some s -> In d (depends_on s) ->
    is_step d -> before st.2 d n.

(** The visited steps that rank below [r] are in the order: a step that is
    visited and not yet in the order is one whose dependencies are being
    visited, and it ranks above them. *)
Definition settled (r : nat) (st : visit_state) : Prop :=
  forall m, m ∈ st.1 -> is_step m -> (rank m < r)%nat -> In m st.2.

End Steps.

(** The names of [order] that resolve to a step: the iterations of the
    loop that do not [continue] at once. *)
Definition resolvable (self : EnrichmentPipeline) (order : list string) : list string :=
  List.filter
    (fun n => match get_step self n with Some _ => true | None => false end)
    order.

(** [r] is the FAILED result of a required step. *)
Definition required_failed (self : EnrichmentPipeline) (r : EnrichmentResult) : bool :=
  status_eqb (status r) FAILED &&
  match get_step self (step_name r) with
  | Some s => required s
  | None => false
  end.

(** The result [enrich] records for a step whose dependencies are not met. *)
Definition skipped_result (n : string) : EnrichmentResult :=
  {| step_name := n; status := SKIPPED; data := None;
     error := Some "Dependencies not met" |}.

(** [rank] puts every step above the steps it depends on. *)
Definition ranked_by (rank : string -> nat) (steps : list EnrichmentStep) : bool :=
  forallb
    (fun s0 =>
       match find_step steps (name s0) with
       | Some s =>
           forallb
             (fun d =>
                match find_step steps d with
                | Some _ => Nat.ltb (rank d) (rank (name s0))
                | None => true
                end)
             (depends_on s)
       | None => true
       end)
    steps.

(** [d] occurs in [order] with an occurrence of [n] after it. *)
Fixpoint precedes (order : list string) (d n : string) : bool :=
  match order with
  | [] => false
  | x :: rest =>
      (String.eqb x d && existsb (String.eqb n) rest) || precedes rest d n
  end.

(** How many times [execute] runs the body of its loop at most. *)
Definition attempts (step : EnrichmentStep) : nat :=
  Z.to_nat (retry_count step + 1).

(** The enriched fields the results stand for: the data of the COMPLETED
    results, merged in order, later keys winning. *)
Definition replay (results : list EnrichmentResult) : Dict :=
  fold_left
    (fun (enriched : Dict) r =>
       match status_eqb (status r) COMPLETED, data r with
       | true, Some d => d ∪ enriched
       | _, _ => enriched
       end)
    results ∅.

(** The COMPLETED result [r] carries a value for [key]. *)
Definition writes (key : string) (r : EnrichmentResult) : bool :=
  status_eqb (status r) COMPLETED &&
  match data r with
  | Some d => match d !! key with Some _ => true | None => false end
  | None => false
  end.

(** [fetch_function] was called for the step of [r]: the result is
    COMPLETED or FAILED. *)
Definition fetched_for (r : EnrichmentResult) : bool :=
  status_eqb (status r) COMPLETED || status_eqb (status r) FAILED.

(** Each step of [l] has a name not in [seen] and not used again, and
    depends only on names in [seen] or on names of no step of [all]:
    the steps come in dependency order. *)
Fixpoint added_in_order (all : list EnrichmentStep) (seen : list string)
    (l : list EnrichmentStep) : bool :=
  match l with
  | [] => true
  | s :: rest =>
      negb (existsb (String.eqb (name s)) seen) &&
      forallb
        (fun d =>
           existsb (String.eqb d) seen ||
           match find_step all d with Some _ => false | None => true end)
        (depends_on s) &&
      added_in_order all (name s :: seen) rest
  end.

End EnrichmentNotions.

(** ** Sample data used to run the definitions *)

Module Samples.
Import Recipes.

(** [render] for runs in which no condition prints a float, a datetime,
    a list or a dict. *)
Definition render_none : Value -> string := fun _ => "".

Definition cond (f : string) (op : ConditionOperator) (v : Value) : RecipeCondition :=
  {| field := f; operator := op; value := v; source := None |}.

Definition employees_over_50 : RecipeCondition :=
  cond "employee_count" GREATER_THAN (VInt 50).

Definition deadline_under_90 : RecipeCondition :=
  cond "days_to_deadline" LESS_THAN (VInt 90).

Definition domain_is_dot_com : RecipeCondition :=
  cond "domain" MATCHES_REGEX (VStr ".*\.com").

Definition funded_within_30_days : RecipeCondition :=
  cond "last_funding_date" WITHIN_DAYS (VInt 30).

Definition day : Z := microseconds_per_day.

Definition tier_after_a : RecipeCondition :=
  cond "tier" GREATER_THAN (VStr "a").

Definition component (n : string) (pts : Z) (c : RecipeCondition) : ScoringComponent :=
  {| name := n; description := ""; points := pts;
     weight_percentage := 0; condition := c |}.

Definition recipe (required optional : list RecipeCondition)
    (components : list ScoringComponent) (thr : Z) : DataRecipe :=
  {| recipe_name := "sample"; recipe_description := ""; target_outcome := "";
     target_persona := ""; target_company_type := ""; timeframe := "";
     ingredients := [];
     required_conditions := required;
     optional_conditions := optional;
     scoring_components := components;
     score_threshold := thr;
     validation_steps := [];
     output_segment := "segment";
     output_sequence := "";
     version := "1.0.0"; author := "" |}.

(** Scenario A and B of the specification: two required conditions and
    components worth 30, 25, 25 and 20 points, threshold 70. *)
Definition deadline_recipe : DataRecipe :=
  recipe [deadline_under_90; employees_over_50] []
    [ component "deadline_urgency" 30 (cond "days_to_deadline" LESS_THAN (VInt 60));
      component "hiring_signal" 25 (cond "posting_age_days" LESS_THAN (VInt 14));
      component "tech_gap" 25 (cond "has_tool" EQUALS (VBool false));
      component "company_fit" 20 (cond "employee_count" GREATER_THAN (VInt 100)) ]
    70.

Definition record_a : Dict :=
  {[ "days_to_deadline" := VInt 45; "employee_count" := VInt 200;
     "has_tool" := VBool false ]}.

Definition record_b : Dict :=
  {[ "days_to_deadline" := VInt 45; "employee_count" := VInt 10;
     "has_tool" := VBool false ]}.

(** A record whose head count arrived as text. *)
Definition record_text : Dict :=
  {[ "days_to_deadline" := VInt 120; "employee_count" := VStr "200" ]}.

(** Two rules worth at most 50 points each, threshold 60 (scenario E). *)
Definition int_field (f : string) (d : Dict) : Z :=
  match dict_get d f with VInt n => n | _ => 0 end.

Definition field_rule (f : string) (cap : Z) : Scoring.ScoringRule :=
  {| Scoring.name := f;
     Scoring.category := Scoring.COMPANY_FIT;
     Scoring.description := "";
     Scoring.max_points := cap;
     Scoring.condition := fun d => truthy (dict_get d f);
     Scoring.score_function := int_field f;
     Scoring.weight := 1 |}.

Definition two_rule_scorer : Scoring.ProspectScorer :=
  Scoring.add_rule
    (Scoring.add_rule (Scoring.new_scorer 60) (field_rule "fit" 50))
    (field_rule "urgency" 50).

Definition batch : list Dict :=
  [ {[ "id" := VStr "acme"; "fit" := VInt 50; "urgency" := VInt 30 ]};
    {[ "id" := VStr "bolt"; "fit" := VInt 40 ]};
    {[ "fit" := VInt 30; "urgency" := VInt 30 ]} ].

(** A rule that takes points away when it applies. *)
Definition penalty_scorer : Scoring.ProspectScorer :=
  Scoring.add_rule (Scoring.new_scorer 0) (field_rule "churned" (-5)).

(** Pipelines.  A step named [n] that depends on [deps]; its fetch function
    is [fetch]. *)
Definition step (n : string) (deps : list string) (req : bool)
    (fetch : Dict -> nat -> Enrichment.fetched) : Enrichment.EnrichmentStep :=
  {| Enrichment.name := n;
     Enrichment.source_name := "source";
     Enrichment.fields_to_fetch := [];
     Enrichment.fetch_function := fetch;
     Enrichment.required := req;
     Enrichment.depends_on := deps;
     Enrichment.timeout_seconds := 30;
     Enrichment.retry_count := 3;
     Enrichment.enabled := true |}.

Definition fetch_field (k : string) : Dict -> nat -> Enrichment.fetched :=
  fun _ _ => Enrichment.Returns {[ k := VBool true ]}.

Definition fetch_down : Dict -> nat -> Enrichment.fetched :=
  fun _ _ => Enrichment.Raises "connection refused".

Definition build (l : list Enrichment.EnrichmentStep) : Enrichment.EnrichmentPipeline :=
  fold_left Enrichment.add_step l (Enrichment.new_pipeline "default").

(** Scenario C: A, then B which needs A and is required, then C which
    needs B; the fetch of B always raises. *)
Definition step_a := step "A" [] false (fetch_field "a").
Definition step_b_required := step "B" ["A"] true fetch_down.
Definition step_c_after_b := step "C" ["B"] false (fetch_field "c").
Definition pipeline_c := build [step_a; step_b_required; step_c_after_b].

(** Scenario D: B is not required and C needs A only. *)
Definition step_b_optional := step "B" ["A"] false fetch_down.
Definition step_c_after_a := step "C" ["A"] false (fetch_field "c").
Definition pipeline_d := build [step_a; step_b_optional; step_c_after_a].

(** Two steps that depend on each other. *)
Definition pipeline_cycle :=
  build [step "A" ["B"] false (fetch_field "a"); step "B" ["A"] false (fetch_field "b")].

(** A step whose dependency names no step. *)
Definition step_tech := step "tech_stack" ["company_basics"] false (fetch_field "tech").
Definition pipeline_dangling := build [step_tech].

(** A source that times out twice and then answers. *)
Definition fetch_flaky : Dict -> nat -> Enrichment.fetched :=
  fun _ i =>
    if Nat.ltb i 2 then Enrichment.Raises "timeout"
    else Enrichment.Returns {[ "funding" := VInt 5 ]}.

Definition step_flaky := step "funding" [] false fetch_flaky.

Definition rank_abc (n : string) : nat :=
  if String.eqb n "A" then 0 else if String.eqb n "B" then 1 else 2.

End Samples.

(** * Properties *)

(** ** The condition evaluator *)

Module ConditionFacts.
Import Recipes RecipeNotions Samples.

(** [order_Q] decides the order of the rationals. *)
Lemma order_Q_spec op x y :
  order_Q op x y = true <->
  match op with
  | Lt_ => (x < y)%Q
  | Le_ => (x <= y)%Q
  | Gt_ => (y < x)%Q
  | Ge_ => (y <= x)%Q
  end.
Proof.
  assert (Hlt : forall a b, Qlt_bool a b = true <-> (a < b)%Q).
  { intros a b. unfold Qlt_bool. rewrite negb_true_iff, <- not_true_iff_false,
      Qle_bool_iff. split; [apply Qnot_le_lt | apply Qlt_not_le]. }
  destruct op; simpl; [apply Hlt | apply Qle_bool_iff | apply Hlt | apply Qle_bool_iff].
Qed.

Lemma order_number_l op a b x :
  as_number a = Some x ->
  py_order op a b =
    match as_number b with
    | Some y => Ok (order_Q op x y)
    | None => TypeError
    end.
Proof.
  destruct a; simpl; intros Ha; try discriminate;
    injection Ha as <-; destruct b; reflexivity.
Qed.

Lemma order_number_r op a b y :
  as_number a = None -> as_number b = Some y -> py_order op a b = TypeError.
Proof.
  destruct a; simpl; intros Ha Hb; try discriminate;
    destruct b; simpl in Hb; try discriminate; reflexivity.
Qed.

Lemma get_absent (data : Dict) f :
  data !! f = None \/ data !! f = Some VNone -> dict_get data f = VNone.
Proof. unfold dict_get. intros [-> | ->]; reflexivity. Qed.

Section Evaluator.
Variable render : Value -> string.

(** C5.  A condition whose operator is neither EXISTS nor NOT_EXISTS,
    on a record where its field is absent or holds [None], evaluates to
    [False]; in particular it does not raise. *)
Theorem missing_field_is_false (now : Z) (c : RecipeCondition) (data : Dict) :
  operator c <> EXISTS ->
  operator c <> NOT_EXISTS ->
  data !! field c = None \/ data !! field c = Some VNone ->
  RecipeCondition_evaluate render now c data = Ok false.
Proof.
  intros Hex Hnex Habs. unfold RecipeCondition_evaluate.
  rewrite (get_absent _ _ Habs). simpl.
  destruct (operator c); congruence.
Qed.

(** C10.  A MATCHES_REGEX condition evaluates to [False] on every
    record: the operator has no branch of its own, so the evaluation
    reaches the final [return False]. *)
Theorem regex_never_holds (now : Z) (c : RecipeCondition) (data : Dict) :
  operator c = MATCHES_REGEX ->
  RecipeCondition_evaluate render now c data = Ok false.
Proof.
  intros Hop. unfold RecipeCondition_evaluate. rewrite Hop.
  destruct (is_none _); reflexivity.
Qed.

(** C6, as the code has it.  For GREATER_THAN, LESS_THAN,
    GREATER_OR_EQUAL and LESS_OR_EQUAL on a record where the field is
    present: when the field value and the comparison value are both
    numbers the result is their numeric comparison; when exactly one of
    them is a number the evaluation raises [TypeError]. *)
Theorem ordering_of_numbers (now : Z) (c : RecipeCondition) (data : Dict)
    (op : ordering) (fv : Value) :
  ordering_of (operator c) = Some op ->
  data !! field c = Some fv ->
  fv <> VNone ->
  (forall x y, as_number fv = Some x -> as_number (value c) = Some y ->
     RecipeCondition_evaluate render now c data = Ok (order_Q op x y)) /\
  (is_numeric fv <> is_numeric (value c) ->
     RecipeCondition_evaluate render now c data = TypeError).
Proof.
  intros Hop Hget Hpresent.
  assert (Heval : RecipeCondition_evaluate render now c data
                  = py_order op fv (value c)).
  { unfold RecipeCondition_evaluate, dict_get. rewrite Hget.
    destruct fv; try congruence;
      destruct (operator c); simpl in Hop |- *; try discriminate Hop;
      injection Hop as <-; reflexivity. }
  rewrite Heval. split.
  - intros x y Hx Hy. rewrite (order_number_l _ _ _ _ Hx), Hy. reflexivity.
  - unfold is_numeric. intros Hne.
    destruct (as_number fv) as [x|] eqn:Hx.
    + rewrite (order_number_l _ _ _ _ Hx).
      destruct (as_number (value c)); [congruence | reflexivity].
    + destruct (as_number (value c)) as [y|] eqn:Hy; [| congruence].
      apply (order_number_r _ _ _ _ Hx Hy).
Qed.

(** C9, as the code has it.  The result of a condition does not depend
    on the time of the evaluation unless the operator is WITHIN_DAYS
    and the field holds a datetime. *)
Theorem evaluate_ignores_clock (now1 now2 : Z) (c : RecipeCondition) (data : Dict) :
  operator c <> WITHIN_DAYS \/ (forall t, dict_get data (field c) <> VDatetime t) ->
  RecipeCondition_evaluate render now1 c data
  = RecipeCondition_evaluate render now2 c data.
Proof.
  intros H. unfold RecipeCondition_evaluate.
  destruct (operator c) eqn:Hop; try reflexivity.
  destruct H as [H | H]; [congruence |].
  destruct (dict_get data (field c)) eqn:Hv; try reflexivity.
  exfalso. apply (H us). reflexivity.
Qed.

End Evaluator.

Lemma missing_field_is_false_witness :
  RecipeCondition_evaluate render_none 0 employees_over_50 ∅ = Ok false.
Proof.
  apply missing_field_is_false.
  - discriminate.
  - discriminate.
  - left. reflexivity.
Defined.

Lemma ordering_of_numbers_witness :
  RecipeCondition_evaluate render_none 0 employees_over_50 record_a = Ok true /\
  RecipeCondition_evaluate render_none 0 employees_over_50 record_text = TypeError.
Proof.
  split.
  - apply (proj1 (ordering_of_numbers render_none 0 employees_over_50 record_a
                    Gt_ (VInt 200) eq_refl eq_refl ltac:(discriminate))
             (inject_Z 200) (inject_Z 50) eq_refl eq_refl).
  - apply (proj2 (ordering_of_numbers render_none 0 employees_over_50 record_text
                    Gt_ (VStr "200") eq_refl eq_refl ltac:(discriminate))).
    discriminate.
Defined.

(** C6, as stated, fails: a head count held as text against the number 50
    raises instead of giving [False], and two strings are compared as
    strings and can give [True]. *)
Lemma ordering_fails_open :
  record_text !! "employee_count" = Some (VStr "200") /\
  is_numeric (VStr "200") = false /\
  RecipeCondition_evaluate render_none 0 employees_over_50 record_text = TypeError /\
  RecipeCondition_evaluate render_none 0 tier_after_a {[ "tier" := VStr "b" ]} = Ok true.
Proof. repeat split. Qed.

Lemma evaluate_ignores_clock_witness :
  RecipeCondition_evaluate render_none 0 employees_over_50 record_a
  = RecipeCondition_evaluate render_none (40 * day) employees_over_50 record_a.
Proof. apply evaluate_ignores_clock. left. discriminate. Defined.

(** C9, as stated, fails: the same WITHIN_DAYS condition on the same record
    holds ten days after the date and no longer holds forty days after. *)
Lemma within_days_depends_on_clock :
  RecipeCondition_evaluate render_none (10 * day) funded_within_30_days
    {[ "last_funding_date" := VDatetime 0 ]} = Ok true /\
  RecipeCondition_evaluate render_none (40 * day) funded_within_30_days
    {[ "last_funding_date" := VDatetime 0 ]} = Ok false.
Proof. split; reflexivity. Qed.

Lemma regex_never_holds_witness :
  RecipeCondition_evaluate render_none 0 domain_is_dot_com
    {[ "domain" := VStr "acme.com" ]} = Ok false.
Proof. apply regex_never_holds. reflexivity. Defined.

End ConditionFacts.

(** ** The recipe engine *)

Module RecipeFacts.
Import Recipes RecipeNotions Samples.

Section Engine.
Variable render : Value -> string.
Variable now : Z.

Local Abbreviation eval := (RecipeCondition_evaluate render now).

(** [all] stops at the first condition that is false. *)
Lemma all_conditions_first_false from pre c post data :
  Forall (fun c' => eval c' data = Ok true) pre ->
  eval c data = Ok false ->
  all_conditions render now from (pre ++ c :: post) data
  = (map (pair from) (pre ++ [c]), Ok false).
Proof.
  intros Hpre Hc.
  induction Hpre as [| c' pre Hc' _ IH]; cbn [all_conditions app map];
    unfold tbind, eval_condition.
  - rewrite Hc. reflexivity.
  - rewrite Hc', IH. reflexivity.
Qed.

(** Among conditions none of which raises up to a false one, there is a
    first false one. *)
Lemma first_false pre c post data :
  eval c data = Ok false ->
  (forall c', In c' pre -> eval c' data <> TypeError) ->
  exists pre' c0 post',
    pre ++ c :: post = pre' ++ c0 :: post' /\
    Forall (fun c' => eval c' data = Ok true) pre' /\
    eval c0 data = Ok false.
Proof.
  intros Hc. induction pre as [| a pre IH]; intros Hno.
  - exists [], c, post. repeat split; [constructor | exact Hc].
  - destruct (eval a data) as [[|]|] eqn:Ha.
    + destruct IH as (pre' & c0 & post' & Heq & Hall & Hc0).
      { intros c' Hin. apply Hno. right. exact Hin. }
      exists (a :: pre'), c0, post'. simpl. rewrite Heq.
      repeat split; [constructor; assumption | exact Hc0].
    + exists [], a, (pre ++ c :: post). repeat split; [constructor | exact Ha].
    + exfalso. apply (Hno a); [left; reflexivity | exact Ha].
Qed.

(** C1, as the code has it.  If some required condition evaluates to
    [False] and no required condition listed before it raises, then
    [DataRecipe.evaluate] returns [matches=False] and [score=0]; the
    conditions it evaluates are the required ones up to the first that is
    false, and nothing else: no optional condition and no scoring
    component.  The outcome is the same for every recipe with these
    required conditions and this threshold. *)
Theorem required_failure_rejects (self : DataRecipe) (data : Dict) pre c post :
  required_conditions self = pre ++ c :: post ->
  eval c data = Ok false ->
  (forall c', In c' pre -> eval c' data <> TypeError) ->
  exists pre' c0 post' ev,
    required_conditions self = pre' ++ c0 :: post' /\
    Forall (fun c' => eval c' data = Ok true) pre' /\
    eval c0 data = Ok false /\
    DataRecipe_evaluate render now self data
    = (map (pair Required) (pre' ++ [c0]), Ok ev) /\
    matches ev = false /\ score ev = 0 /\ scoring_details ev = None /\
    forall other : DataRecipe,
      required_conditions other = required_conditions self ->
      score_threshold other = score_threshold self ->
      DataRecipe_evaluate render now other data
      = DataRecipe_evaluate render now self data.
Proof.
  intros Hreq Hc Hno.
  destruct (first_false pre c post data Hc Hno)
    as (pre' & c0 & post' & Heq & Hall & Hc0).
  pose proof (all_conditions_first_false Required pre' c0 post' data Hall Hc0) as Hrun.
  rewrite <- Heq, <- Hreq in Hrun.
  assert (Hout : forall r : DataRecipe,
             required_conditions r = required_conditions self ->
             score_threshold r = score_threshold self ->
             DataRecipe_evaluate render now r data
             = (map (pair Required) (pre' ++ [c0]),
                Ok (rejection (score_threshold self)))).
  { intros r Hr Ht. unfold DataRecipe_evaluate. rewrite Hr, Hrun, Ht. simpl.
    rewrite app_nil_r. reflexivity. }
  exists pre', c0, post', (rejection (score_threshold self)).
  split; [rewrite Hreq; exact Heq |].
  split; [exact Hall |]. split; [exact Hc0 |].
  split; [apply Hout; reflexivity |].
  split; [reflexivity |]. split; [reflexivity |]. split; [reflexivity |].
  intros other Hr Ht. rewrite (Hout other Hr Ht). symmetry. apply Hout; reflexivity.
Qed.

End Engine.

(** Scenario B: the head count of 10 fails the second required condition;
    evaluation stops there. *)
Lemma required_failure_rejects_witness :
  exists pre' c0 post' ev,
    required_conditions deadline_recipe = pre' ++ c0 :: post' /\
    Forall (fun c' => RecipeCondition_evaluate render_none 0 c' record_b = Ok true) pre' /\
    RecipeCondition_evaluate render_none 0 c0 record_b = Ok false /\
    DataRecipe_evaluate render_none 0 deadline_recipe record_b
    = (map (pair Required) (pre' ++ [c0]), Ok ev) /\
    matches ev = false /\ score ev = 0 /\ scoring_details ev = None /\
    forall other : DataRecipe,
      required_conditions other = required_conditions deadline_recipe ->
      score_threshold other = score_threshold deadline_recipe ->
      DataRecipe_evaluate render_none 0 other record_b
      = DataRecipe_evaluate render_none 0 deadline_recipe record_b.
Proof.
  apply (required_failure_rejects render_none 0 deadline_recipe record_b
           [deadline_under_90] employees_over_50 []).
  - reflexivity.
  - reflexivity.
  - intros c' [<- | []]. discriminate.
Defined.

(** Scenario B, run. *)
Example scenario_b :
  DataRecipe_evaluate render_none 0 deadline_recipe record_b
  = ([(Required, deadline_under_90); (Required, employees_over_50)],
     Ok (rejection 70)).
Proof. reflexivity. Qed.

(** Scenario A: both required conditions hold and the triggered components
    add up to 75. *)
Example scenario_a :
  snd (DataRecipe_evaluate render_none 0 deadline_recipe record_a)
  = Ok {| matches := true; reason := None; score := 75; threshold := 70;
          required_conditions_met := Some true;
          optional_conditions_met := Some 0%nat;
          scoring_details :=
            Some [("deadline_urgency", 30); ("tech_gap", 25); ("company_fit", 20)];
          res_output_segment := Some (Some "segment") |}.
Proof. reflexivity. Qed.

(** C1, as stated, fails: on [record_text] the second required condition
    evaluates to [False], yet the first one raises and so does
    [DataRecipe.evaluate]. *)
Lemma false_after_raise :
  In deadline_under_90 (required_conditions (recipe [employees_over_50; deadline_under_90] [] [] 70)) /\
  RecipeCondition_evaluate render_none 0 deadline_under_90 record_text = Ok false /\
  DataRecipe_evaluate render_none 0
    (recipe [employees_over_50; deadline_under_90] [] [] 70) record_text
  = ([(Required, employees_over_50)], TypeError).
Proof. repeat split. right. left. reflexivity. Qed.

End RecipeFacts.

(** ** The scoring engine *)

Module ScoringFacts.
Import Scoring ScoringNotions Samples.

Lemma sum_Z_app l1 l2 : sum_Z (l1 ++ l2) = sum_Z l1 + sum_Z l2.
Proof. unfold sum_Z. induction l1; simpl; lia. Qed.

Lemma tally_fold data rules t :
  let t' := fold_left (score_rule data) rules t in
  t_total_score t' = t_total_score t + sum_Z (map (fun r => contribution r data) rules) /\
  t_max_possible t' = t_max_possible t + sum_Z (map max_points rules) /\
  t_rule_results t' = t_rule_results t ++ map (fun r => ScoringRule_evaluate r data) rules.
Proof.
  revert t. induction rules as [| rule rules IH]; intros t; simpl.
  - rewrite app_nil_r. unfold sum_Z. simpl. repeat split; lia.
  - destruct (IH (score_rule data t rule)) as (Ht & Hm & Hr).
    rewrite Ht, Hm, Hr. unfold score_rule, contribution.
    destruct (applies (ScoringRule_evaluate rule data));
      cbn [t_total_score t_max_possible t_rule_results map];
      rewrite <- app_assoc; cbn [app]; unfold sum_Z; cbn [fold_right];
      repeat split; lia.
Qed.

Lemma contribution_applied rule data :
  condition rule data = true -> contribution rule data <= max_points rule.
Proof.
  intros H. unfold contribution, ScoringRule_evaluate. rewrite H. simpl. lia.
Qed.

Lemma contribution_not_applied rule data :
  condition rule data = false -> contribution rule data = 0.
Proof.
  intros H. unfold contribution, ScoringRule_evaluate. rewrite H. reflexivity.
Qed.

(** C2, as the code has it.  [max_possible] is the sum of [max_points]
    over all rules, whether or not their guards apply, and [total_score]
    is the sum of the rules' contributions, where a rule whose guard
    applies contributes at most its [max_points] and any other rule
    contributes 0.  When no rule whose guard does not apply has a negative
    [max_points], every contribution is at most the rule's [max_points]
    and [total_score <= max_possible]. *)
Theorem score_within_max (self : ProspectScorer) (pid : Value) (data : Dict) :
  let s := score_prospect self pid data in
  max_possible s = sum_Z (map max_points (rules self)) /\
  total_score s = sum_Z (map (fun r => contribution r data) (rules self)) /\
  rule_results s = map (fun r => ScoringRule_evaluate r data) (rules self) /\
  (forall rule, condition rule data = true ->
     contribution rule data <= max_points rule) /\
  (forall rule, condition rule data = false -> contribution rule data = 0) /\
  ((forall rule, In rule (rules self) ->
      condition rule data = false -> 0 <= max_points rule) ->
   (forall rule, In rule (rules self) -> contribution rule data <= max_points rule) /\
   total_score s <= max_possible s).
Proof.
  intros s.
  destruct (tally_fold data (rules self) tally0) as (Ht & Hm & Hr).
  subst s. unfold score_prospect. simpl. rewrite Ht, Hm, Hr. simpl.
  split; [reflexivity |]. split; [reflexivity |]. split; [reflexivity |].
  split; [intros rule; apply contribution_applied |].
  split; [intros rule; apply contribution_not_applied |].
  intros Hnonneg.
  assert (Hle : forall rule, In rule (rules self) ->
                  contribution rule data <= max_points rule).
  { intros rule Hin. destruct (condition rule data) eqn:Hc.
    - apply contribution_applied, Hc.
    - rewrite (contribution_not_applied _ _ Hc). apply Hnonneg; assumption. }
  split; [exact Hle |].
  clear Ht Hm Hr Hnonneg. induction (rules self) as [| rule l IH]; simpl.
  - lia.
  - pose proof (Hle rule (or_introl eq_refl)).
    assert (sum_Z (map (fun r => contribution r data) l)
            <= sum_Z (map max_points l)).
    { apply IH. intros r Hr. apply Hle. right. exact Hr. }
    lia.
Qed.

Lemma score_within_max_witness :
  let s := score_prospect two_rule_scorer (VStr "bolt") {[ "fit" := VInt 70 ]} in
  (forall rule, In rule (rules two_rule_scorer) ->
     contribution rule {[ "fit" := VInt 70 ]} <= max_points rule) /\
  total_score s <= max_possible s.
Proof.
  apply (score_within_max two_rule_scorer (VStr "bolt") {[ "fit" := VInt 70 ]}).
  intros rule [<- | [<- | []]] _; simpl; lia.
Defined.

(** The capped rule above: 70 raw points count as 50 of 100. *)
Example capped_rule :
  let s := score_prospect two_rule_scorer (VStr "bolt") {[ "fit" := VInt 70 ]} in
  (total_score s, max_possible s, qualifies s) = (50, 100, false).
Proof. reflexivity. Qed.

(** C2, as stated, fails for a rule with negative [max_points] whose guard
    does not apply: it contributes 0, which is more than its [max_points],
    and the total exceeds [max_possible]. *)
Lemma negative_max_points :
  let s := score_prospect penalty_scorer (VStr "acme") ∅ in
  In (field_rule "churned" (-5)) (rules penalty_scorer) /\
  max_points (field_rule "churned" (-5)) < contribution (field_rule "churned" (-5)) ∅ /\
  max_possible s < total_score s.
Proof. simpl. repeat split; try lia. left. reflexivity. Qed.

(** *** Batch scoring *)

Section StableSort.
Context {A : Type} (key : A -> Z).

Lemma insert_desc_perm x l : Permutation (insert_desc key x l) (x :: l).
Proof.
  induction l as [| y l IH]; simpl.
  - reflexivity.
  - destruct (Z.leb (key y) (key x)).
    + reflexivity.
    + rewrite IH. apply perm_swap.
Qed.

Lemma sort_desc_perm l : Permutation (sort_desc key l) l.
Proof.
  induction l as [| x l IH]; simpl.
  - reflexivity.
  - rewrite insert_desc_perm. constructor. exact IH.
Qed.

Lemma insert_desc_hd x y l :
  key x <= key y -> HdRel (fun a b => key b <= key a) y l ->
  HdRel (fun a b => key b <= key a) y (insert_desc key x l).
Proof.
  intros Hxy Hhd. destruct l as [| z l]; simpl.
  - constructor. exact Hxy.
  - destruct (Z.leb (key z) (key x)); constructor.
    + exact Hxy.
    + inversion Hhd. assumption.
Qed.

Lemma insert_desc_sorted x l :
  descending key l -> descending key (insert_desc key x l).
Proof.
  unfold descending. induction 1 as [| y l Hs IH Hhd]; simpl.
  - repeat constructor.
  - destruct (Z.leb (key y) (key x)) eqn:Hle.
    + constructor; [constructor; assumption |].
      constructor. apply Z.leb_le, Hle.
    + constructor; [exact IH |].
      apply insert_desc_hd; [| exact Hhd].
      apply Z.leb_gt in Hle. lia.
Qed.

Lemma sort_desc_sorted l : descending key (sort_desc key l).
Proof.
  induction l as [| x l IH]; simpl.
  - constructor.
  - apply insert_desc_sorted, IH.
Qed.

(** Elements that [x] moves past have a larger key than [x], so among the
    elements of any one key the order is the order of arrival. *)
Lemma insert_desc_stable k x l :
  List.filter (fun a => Z.eqb (key a) k) (insert_desc key x l)
  = List.filter (fun a => Z.eqb (key a) k) (x :: l).
Proof.
  induction l as [| y l IH].
  - reflexivity.
  - cbn [insert_desc]. destruct (Z.leb (key y) (key x)) eqn:Hle.
    + reflexivity.
    + apply Z.leb_gt in Hle. cbn [List.filter] in IH |- *. rewrite IH.
      destruct (Z.eqb (key x) k) eqn:Hx; [| reflexivity].
      apply Z.eqb_eq in Hx.
      assert (Z.eqb (key y) k = false) as -> by (apply Z.eqb_neq; lia).
      reflexivity.
Qed.

Lemma sort_desc_stable k l :
  List.filter (fun a => Z.eqb (key a) k) (sort_desc key l)
  = List.filter (fun a => Z.eqb (key a) k) l.
Proof.
  induction l as [| x l IH].
  - reflexivity.
  - cbn [sort_desc fold_right]. rewrite insert_desc_stable.
    cbn [List.filter]. fold (sort_desc key l). rewrite IH. reflexivity.
Qed.

Lemma filter_descending (p : A -> bool) l :
  descending key l -> descending key (List.filter p l).
Proof.
  unfold descending. intros Hs. apply Sorted_StronglySorted in Hs.
  - apply StronglySorted_Sorted.
    induction Hs as [| x l Hs IH Hall]; simpl.
    + constructor.
    + destruct (p x); [| exact IH].
      constructor; [exact IH |].
      apply Stdlib.Lists.List.Forall_forall. intros y Hy. apply filter_In in Hy.
      rewrite Stdlib.Lists.List.Forall_forall in Hall. apply Hall. tauto.
  - intros a b c Hab Hbc. lia.
Qed.

End StableSort.

Lemma score_each_spec self id_field prospects scores :
  score_each self id_field prospects scores
  = scores ++ scores_from self id_field (length scores) prospects.
Proof.
  revert scores. induction prospects as [| p rest IH]; intros scores; simpl.
  - rewrite app_nil_r. reflexivity.
  - rewrite IH, length_app, <- app_assoc. simpl.
    replace (length scores + 1)%nat with (S (length scores)) by lia.
    reflexivity.
Qed.

Lemma scores_from_length self id_field i prospects :
  length (scores_from self id_field i prospects) = length prospects.
Proof.
  revert i. induction prospects; intros i; simpl; [| rewrite IHprospects]; reflexivity.
Qed.

(** C8.  [score_batch] returns the scores of the records, one per record,
    in descending order of [total_score]; scores with the same total keep
    the order of their records in the input.  [get_qualified_prospects]
    returns the scores of that list whose [qualifies] flag is set, in the
    same order; the flag of a score is [total_score >= threshold]. *)
Theorem batch_sorted_and_stable (self : ProspectScorer) (prospects : list Dict)
    (id_field : string) :
  let scored := scores_from self id_field 0 prospects in
  let sorted := score_batch self prospects id_field in
  Permutation sorted scored /\
  length sorted = length prospects /\
  descending total_score sorted /\
  (forall k, List.filter (fun s => Z.eqb (total_score s) k) sorted
             = List.filter (fun s => Z.eqb (total_score s) k) scored) /\
  get_qualified_prospects self prospects id_field = List.filter qualifies sorted /\
  (forall s, In s sorted -> qualifies s = Z.leb (threshold self) (total_score s)) /\
  descending total_score (get_qualified_prospects self prospects id_field).
Proof.
  intros scored sorted.
  assert (Hsorted : sorted = sort_desc total_score scored).
  { subst sorted scored. unfold score_batch. rewrite score_each_spec. reflexivity. }
  assert (Hperm : Permutation sorted scored).
  { rewrite Hsorted. apply sort_desc_perm. }
  assert (Hdesc : descending total_score sorted).
  { rewrite Hsorted. apply sort_desc_sorted. }
  repeat split.
  - exact Hperm.
  - rewrite (Permutation_length Hperm). apply scores_from_length.
  - exact Hdesc.
  - intros k. rewrite Hsorted. apply sort_desc_stable.
  - intros s Hin. apply (Permutation_in _ Hperm) in Hin.
    subst scored. clear -Hin. revert Hin. generalize 0%nat.
    induction prospects as [| p rest IH]; intros i; simpl.
    + tauto.
    + intros [<- | Hin]; [reflexivity | apply (IH _ Hin)].
  - unfold get_qualified_prospects. apply filter_descending. exact Hdesc.
Qed.

(** Scenario E: totals 80, 40 and 60 against threshold 60. *)
Example scenario_e :
  map total_score (scores_from two_rule_scorer "id" 0 batch) = [80; 40; 60] /\
  map (fun s => (prospect_id s, total_score s))
      (get_qualified_prospects two_rule_scorer batch "id")
  = [(VStr "acme", 80); (VStr "2", 60)].
Proof. split; reflexivity. Qed.

(** Equal totals stay in input order. *)
Example ties_keep_input_order :
  map prospect_id
    (score_batch two_rule_scorer
       [ {[ "id" := VStr "first"; "fit" := VInt 20 ]};
         {[ "id" := VStr "top"; "fit" := VInt 45 ]};
         {[ "id" := VStr "second"; "urgency" := VInt 20 ]} ] "id")
  = [VStr "top"; VStr "first"; VStr "second"].
Proof. reflexivity. Qed.

End ScoringFacts.

(** ** The enrichment pipeline *)

Module EnrichmentFacts.
Import Enrichment EnrichmentNotions.
Local Open Scope nat_scope.

(** *** The traversal of [_recalculate_order] *)

Section Traversal.
Variable steps : list EnrichmentStep.

Lemma find_step_name n s : find_step steps n = Some s -> In s steps /\ name s = n.
Proof.
  unfold find_step. intros H. apply find_some in H as [Hin Heq].
  split; [exact Hin | apply String.eqb_eq, Heq].
Qed.

Lemma find_step_in s : In s steps -> is_step steps (name s).
Proof.
  unfold is_step, find_step. intros Hin.
  destruct (List.find _ steps) eqn:Hf; [eexists; reflexivity |].
  exfalso. pose proof (find_none _ _ Hf s Hin) as Hn. simpl in Hn.
  rewrite String.eqb_refl in Hn. discriminate.
Qed.

Lemma is_step_names n : is_step steps n -> n ∈ (step_names steps).
Proof.
  intros [s Hs]. apply find_step_name in Hs as [Hin <-].
  unfold step_names. apply elem_of_list_to_set, list_elem_of_In, in_map, Hin.
Qed.

Lemma size_step_names : size (step_names steps) <= length steps.
Proof.
  unfold step_names. induction steps as [| s l IH]; cbn [map length list_to_set].
  - rewrite size_empty. lia.
  - rewrite size_union_alt, size_singleton.
    pose proof (subseteq_size (list_to_set (map name l) ∖ {[name s]})
                  (list_to_set (map name l) : gset string)) as Hle.
    assert (size (list_to_set (map name l) ∖ {[name s]} : gset string)
            <= size (list_to_set (map name l) : gset string))%nat
      by (apply Hle; set_solver).
    lia.
Qed.

(** A loop over names returns when each call does. *)
Lemma for_each_returns fuel names :
  (forall n st, unvisited steps st < fuel ->
     exists st', visit fuel steps n st = Some st' /\ st.1 ⊆ st'.1) ->
  forall st, unvisited steps st < fuel ->
    exists st', for_each (visit fuel steps) names st = Some st' /\ st.1 ⊆ st'.1.
Proof.
  intros Hvisit. induction names as [| n names IH]; intros st Hlt; simpl.
  - exists st. split; [reflexivity | set_solver].
  - destruct (Hvisit n st Hlt) as (st1 & -> & Hsub1).
    destruct (IH st1) as (st2 & -> & Hsub2).
    + unfold unvisited in *.
      assert (size ((step_names steps) ∖ st1.1) <= size ((step_names steps) ∖ st.1))%nat
        by (apply subseteq_size; set_solver).
      lia.
    + exists st2. split; [reflexivity | set_solver].
Qed.

(** [visit] returns whenever the fuel exceeds the number of step names
    not yet visited. *)
Lemma visit_returns fuel :
  forall n st, unvisited steps st < fuel ->
    exists st', visit fuel steps n st = Some st' /\ st.1 ⊆ st'.1.
Proof.
  induction fuel as [| fuel IH]; intros n [visited order] Hlt; [lia |].
  simpl. destruct (decide (n ∈ visited)) as [Hin | Hnin].
  - eexists. split; [reflexivity | set_solver].
  - destruct (find_step steps n) as [s |] eqn:Hfind.
    + destruct (for_each_returns fuel (depends_on s) IH ({[n]} ∪ visited, order))
        as ([visited' order'] & -> & Hsub).
      * unfold unvisited in *. simpl in *.
        assert (Hn : n ∈ (step_names steps)) by (apply is_step_names; eexists; exact Hfind).
        assert (Hsz : size ((step_names steps) ∖ visited)
                      = (size ({[n]} : gset string)
                         + size ((step_names steps) ∖ ({[n]} ∪ visited)))%nat).
        { rewrite <- size_union by set_solver. f_equal.
          apply set_eq. intros x. rewrite elem_of_union, !elem_of_difference,
            elem_of_union, elem_of_singleton.
          destruct (decide (x = n)) as [-> | Hne]; [tauto | tauto]. }
        rewrite size_singleton in Hsz. lia.
      * eexists. split; [reflexivity |]. simpl in *. set_solver.
    + eexists. split; [reflexivity |]. simpl. set_solver.
Qed.

(** The fuel [_recalculate_order] is run with is enough: the traversal
    returns. *)
Lemma traverse_returns : exists st, traverse steps = Some st.
Proof.
  unfold traverse.
  destruct (for_each_returns (S (length steps)) (map name steps)
              (visit_returns _) (∅, [])) as (st & Hst & _).
  - unfold unvisited. simpl.
    pose proof size_step_names.
    assert (size ((step_names steps) ∖ ∅) <= size (step_names steps))%nat
      by (apply subseteq_size; set_solver).
    lia.
  - exists st. exact Hst.
Qed.

Lemma extends_refl st : extends steps st st.
Proof.
  split; [| split; [| split]].
  - set_solver.
  - exists []. rewrite app_nil_r. split; [reflexivity | intros m []].
  - intros m Hin Hnin. contradiction.
  - tauto.
Qed.

Lemma extends_trans st1 st2 st3 : extends steps st1 st2 -> extends steps st2 st3 -> extends steps st1 st3.
Proof.
  intros (Hs1 & (new1 & He1 & Hn1) & Hc1 & Hw1) (Hs2 & (new2 & He2 & Hn2) & Hc2 & Hw2).
  split; [| split; [| split]].
  - set_solver.
  - exists (new1 ++ new2). rewrite He2, He1, <- app_assoc. split; [reflexivity |].
    intros m Hin. apply in_app_or in Hin as [Hin | Hin].
    + apply Hn1, Hin.
    + intros Hm. apply (Hn2 m Hin). set_solver.
  - intros m Hm3 Hm1 Hstep. destruct (decide (m ∈ st2.1)) as [Hm2 | Hm2].
    + rewrite He2. apply in_or_app. left. apply Hc1; assumption.
    + apply Hc2; assumption.
  - intros H. apply Hw2, Hw1, H.
Qed.

Lemma for_each_extends (f : string -> visit_state -> option visit_state) names :
  (forall n st st', f n st = Some st' -> extends steps st st' /\ n ∈ st'.1) ->
  forall st st', for_each f names st = Some st' ->
    extends steps st st' /\ forall n, In n names -> n ∈ st'.1.
Proof.
  intros Hf. induction names as [| n names IH]; intros st st' Hrun; simpl in Hrun.
  - injection Hrun as <-. split; [apply extends_refl | intros n []].
  - destruct (f n st) as [st1 |] eqn:H1; [| discriminate].
    destruct (Hf _ _ _ H1) as [Hext1 Hin1].
    destruct (IH _ _ Hrun) as [Hext2 Hin2].
    split; [eapply extends_trans; eassumption |].
    intros m [<- | Hm]; [| apply Hin2, Hm].
    destruct Hext2 as (Hsub & _). set_solver.
Qed.

Lemma visit_extends fuel :
  forall n st st', visit fuel steps n st = Some st' -> extends steps st st' /\ n ∈ st'.1.
Proof.
  induction fuel as [| fuel IH]; intros n [visited order] st' Hrun; [discriminate |].
  simpl in Hrun. destruct (decide (n ∈ visited)) as [Hin | Hnin].
  - injection Hrun as <-. split; [apply extends_refl | exact Hin].
  - destruct (find_step steps n) as [s |] eqn:Hfind.
    + destruct (for_each (visit fuel steps) (depends_on s) ({[n]} ∪ visited, order))
        as [[visited' order'] |] eqn:Hdeps; [| discriminate].
      injection Hrun as <-.
      destruct (for_each_extends _ _ IH _ _ Hdeps)
        as [(Hsub & (new & Hnew & Hfresh) & Hclosed & Hwf) _].
      simpl in *. split; [| set_solver].
      split; [| split; [| split]]; simpl.
      * set_solver.
      * exists (new ++ [n]). rewrite Hnew, <- app_assoc. split; [reflexivity |].
        intros m Hm Hmv. apply in_app_or in Hm as [Hm | [<- | []]].
        -- apply (Hfresh m Hm). set_solver.
        -- contradiction.
      * intros m Hm Hmv Hstep. apply in_or_app.
        destruct (decide (m = n)) as [-> | Hne]; [right; left; reflexivity |].
        left. apply Hclosed; [exact Hm | set_solver | exact Hstep].
      * intros [Ho Hnd]. simpl in Ho, Hnd.
        assert (Hwf' : well_formed steps (visited', order')).
        { apply Hwf. split; [| exact Hnd]. simpl. intros k Hk.
          destruct (Ho k Hk). split; [set_solver | assumption]. }
        destruct Hwf' as [Ho' Hnd']. simpl in Ho', Hnd'.
        split; simpl.
        -- intros m Hm. apply in_app_or in Hm as [Hm | [<- | []]].
           ++ apply Ho', Hm.
           ++ split; [set_solver | eexists; exact Hfind].
        -- apply NoDup_app. split; [exact Hnd' |].
           split; [| apply NoDup_singleton].
           intros m Hm Hmn. apply list_elem_of_In in Hm, Hmn.
           destruct Hmn as [Heq | []]. subst m. rewrite Hnew in Hm.
           apply in_app_or in Hm as [Hm | Hm].
           ++ apply Hnin. apply (Ho n Hm).
           ++ apply (Hfresh n Hm). set_solver.
    + injection Hrun as <-. simpl. split; [| set_solver].
      split; [| split; [| split]]; simpl.
      * set_solver.
      * exists []. rewrite app_nil_r. split; [reflexivity | intros m []].
      * intros m Hm Hmv Hstep.
        assert (m = n) as -> by set_solver.
        destruct Hstep as [s Hs]. congruence.
      * intros [Ho Hnd]. split; [| exact Hnd]. simpl in *.
        intros m Hm. destruct (Ho m Hm). split; [set_solver | assumption].
Qed.

(** Every step that has left the traversal is in the order. *)
Lemma traverse_covers st :
  traverse steps = Some st ->
  NoDup st.2 /\ forall n, In n st.2 <-> is_step steps n.
Proof.
  unfold traverse. intros Hrun.
  destruct (for_each_extends _ _ (visit_extends _) _ _ Hrun)
    as [(_ & _ & Hclosed & Hwf) Hall].
  destruct Hwf as [Ho Hnd].
  { split; [intros n [] | constructor]. }
  split; [exact Hnd |]. intros n. split.
  - intros Hin. apply (Ho n Hin).
  - intros Hstep. apply Hclosed; [| set_solver | exact Hstep].
    destruct Hstep as [s Hs]. apply find_step_name in Hs as [Hin <-].
    apply Hall, in_map, Hin.
Qed.

(** *** Dependencies come first when the steps can be ranked *)

Variable rank : string -> nat.

(** Every step ranks above the steps it depends on: the dependency graph
    has no cycle. *)
Hypothesis ranked :
  forall n s d,
    find_step steps n = Some s -> In d (depends_on s) -> is_step steps d ->
    rank d < rank n.

Lemma settled_extends r st st' : extends steps st st' -> settled steps rank r st -> settled steps rank r st'.
Proof.
  intros (_ & (new & Hnew & _) & Hclosed & _) Hlow m Hm Hstep Hr.
  destruct (decide (m ∈ st.1)) as [Hold | Hfresh].
  - rewrite Hnew. apply in_or_app. left. apply Hlow; assumption.
  - apply Hclosed; assumption.
Qed.

Lemma for_each_deps_first fuel r names :
  (forall n st st',
     visit fuel steps n st = Some st' -> deps_first steps st ->
     (is_step steps n -> settled steps rank (S (rank n)) st) -> deps_first steps st') ->
  (forall d, In d names -> is_step steps d -> rank d < r) ->
  forall st st',
    for_each (visit fuel steps) names st = Some st' ->
    deps_first steps st -> settled steps rank r st ->
    deps_first steps st' /\ settled steps rank r st'.
Proof.
  intros Hvisit. induction names as [| d names IH]; intros Hrank st st' Hrun Hdf Hlow;
    simpl in Hrun.
  - injection Hrun as <-. split; assumption.
  - destruct (visit fuel steps d st) as [st1 |] eqn:H1; [| discriminate].
    apply (IH (fun d' Hd' => Hrank d' (or_intror Hd')) st1 st' Hrun).
    + apply (Hvisit _ _ _ H1 Hdf). intros Hstep m Hm Hms Hmr.
      apply Hlow; [assumption | assumption |].
      pose proof (Hrank d (or_introl eq_refl) Hstep). lia.
    + apply (settled_extends r st st1); [| exact Hlow].
      apply (visit_extends _ _ _ _ H1).
Qed.

Lemma before_app order extra d n : before order d n -> before (order ++ extra) d n.
Proof.
  intros (l1 & l2 & l3 & ->). exists l1, l2, (l3 ++ extra).
  rewrite <- !app_assoc. simpl. rewrite <- app_assoc. reflexivity.
Qed.

Lemma visit_deps_first fuel :
  forall n st st',
    visit fuel steps n st = Some st' -> deps_first steps st ->
    (is_step steps n -> settled steps rank (S (rank n)) st) -> deps_first steps st'.
Proof.
  induction fuel as [| fuel IH]; intros n [visited order] st' Hrun Hdf Hlow;
    [discriminate |].
  simpl in Hrun. destruct (decide (n ∈ visited)) as [Hin | Hnin].
  - injection Hrun as <-. exact Hdf.
  - destruct (find_step steps n) as [s |] eqn:Hfind.
    + destruct (for_each (visit fuel steps) (depends_on s) ({[n]} ∪ visited, order))
        as [[visited' order'] |] eqn:Hdeps; [| discriminate].
      injection Hrun as <-.
      assert (Hstep : is_step steps n) by (eexists; exact Hfind).
      destruct (for_each_deps_first fuel (rank n) (depends_on s) IH) with
        (st := ({[n]} ∪ visited, order)) (st' := (visited', order'))
        as [Hdf' Hlow'].
      * intros d Hd Hds. apply (ranked n s d Hfind Hd Hds).
      * exact Hdeps.
      * exact Hdf.
      * intros m Hm Hms Hmr. simpl in *.
        apply (Hlow Hstep m); [| exact Hms | lia].
        assert (m <> n) by (intros ->; lia). set_solver.
      * destruct (for_each_extends _ _ (visit_extends fuel) _ _ Hdeps)
          as [(Hsub & _) Hvisited].
        intros m s' d Hm Hs' Hd Hds. simpl in *.
        apply in_app_or in Hm as [Hm | [<- | []]].
        -- apply before_app. apply (Hdf' m s' d); assumption.
        -- assert (s' = s) as -> by congruence.
           assert (Hin : In d order').
           { apply Hlow'; [apply Hvisited, Hd | exact Hds |].
             apply (ranked n s d Hfind Hd Hds). }
           apply in_split in Hin as (l1 & l2 & ->).
           exists l1, l2, []. rewrite <- app_assoc. reflexivity.
    + injection Hrun as <-. exact Hdf.
Qed.

Lemma traverse_deps_first st : traverse steps = Some st -> deps_first steps st.
Proof.
  unfold traverse.
  assert (Hloop : forall fuel names st0 st1,
             for_each (visit fuel steps) names st0 = Some st1 ->
             deps_first steps st0 -> (forall r, settled steps rank r st0) ->
             deps_first steps st1).
  { intros fuel.
    induction names as [| n names IH]; intros st0 st1 Hrun Hdf Hall;
      cbn [for_each] in Hrun.
    - injection Hrun as <-. exact Hdf.
    - destruct (visit fuel steps n st0) as [st' |] eqn:H1; [| discriminate].
      apply (IH st' st1 Hrun).
      + apply (visit_deps_first _ _ _ _ H1 Hdf). intros _. apply Hall.
      + intros r. apply (settled_extends r st0 st'); [| apply Hall].
        apply (visit_extends _ _ _ _ H1). }
  intros Hrun. apply (Hloop _ _ _ _ Hrun).
  - intros n s d [].
  - intros r m Hm. set_solver.
Qed.

End Traversal.

Lemma ranked_by_spec rank steps :
  ranked_by rank steps = true ->
  forall n s d,
    find_step steps n = Some s -> In d (depends_on s) -> is_step steps d ->
    rank d < rank n.
Proof.
  unfold ranked_by. rewrite forallb_forall. intros H n s d Hs Hd [sd Hsd].
  destruct (find_step_name _ _ _ Hs) as [Hin Hname].
  specialize (H s Hin). rewrite Hname, Hs in H.
  rewrite forallb_forall in H. specialize (H d Hd). rewrite Hsd in H.
  apply Nat.ltb_lt, H.
Qed.

Lemma before_precedes order d n : before order d n -> precedes order d n = true.
Proof.
  intros (l1 & l2 & l3 & ->). induction l1 as [| x l1 IH]; simpl.
  - rewrite String.eqb_refl. simpl. apply orb_true_iff. left.
    apply existsb_exists. exists n. split; [| apply String.eqb_refl].
    apply in_or_app. right. left. reflexivity.
  - rewrite IH. apply orb_true_r.
Qed.

Lemma recalculate_order_eq self :
  exists st,
    traverse (steps self) = Some st /\
    _recalculate_order self
    = {| pipeline_name := pipeline_name self; steps := steps self;
         _step_order := st.2 |}.
Proof.
  destruct (traverse_returns (steps self)) as [[visited order] Hst].
  exists (visited, order). split; [exact Hst |].
  unfold _recalculate_order. rewrite Hst. reflexivity.
Qed.

(** C3, as the code has it.  When the steps can be ranked so that every
    step ranks above the steps it depends on (no dependency cycle), the
    order [_recalculate_order] computes lists every step name once, and
    every dependency of a step that names a step of the pipeline comes
    before the step.  A step is the one its name resolves to, as in
    [get_step]. *)
Theorem dependencies_come_first (self : EnrichmentPipeline) (rank : string -> nat) :
  ranked_by rank (steps self) = true ->
  let order := _step_order (_recalculate_order self) in
  NoDup order /\
  (forall n, In n order <-> is_Some (get_step self n)) /\
  forall step dep,
    get_step self (name step) = Some step ->
    In dep (depends_on step) ->
    is_Some (get_step self dep) ->
    before order dep (name step).
Proof.
  intros Hrank order.
  destruct (recalculate_order_eq self) as (st & Hst & Heq).
  subst order. rewrite Heq. simpl.
  destruct (traverse_covers _ _ Hst) as [Hnd Hcover].
  split; [exact Hnd |]. split; [exact Hcover |].
  intros step dep Hstep Hdep Hisstep.
  apply (traverse_deps_first (steps self) rank (ranked_by_spec _ _ Hrank) st Hst
           (name step) step dep); try assumption.
  apply Hcover. eexists. exact Hstep.
Qed.

Lemma dependencies_come_first_witness :
  let order := _step_order (_recalculate_order Samples.pipeline_c) in
  NoDup order /\
  (forall n, In n order <-> is_Some (get_step Samples.pipeline_c n)) /\
  forall step dep,
    get_step Samples.pipeline_c (name step) = Some step ->
    In dep (depends_on step) ->
    is_Some (get_step Samples.pipeline_c dep) ->
    before order dep (name step).
Proof.
  apply (dependencies_come_first Samples.pipeline_c Samples.rank_abc).
  reflexivity.
Defined.

(** Scenario C: the order is A, B, C. *)
Example scenario_c_order : _step_order Samples.pipeline_c = ["A"; "B"; "C"].
Proof. reflexivity. Qed.

(** C3, as stated, fails on a cycle: B depends on A, and A comes after B. *)
Lemma cycle_breaks_order :
  _step_order Samples.pipeline_cycle = ["B"; "A"] /\
  get_step Samples.pipeline_cycle "B"
  = Some (Samples.step "B" ["A"] false (Samples.fetch_field "b")) /\
  ~ before (_step_order Samples.pipeline_cycle) "A" "B".
Proof.
  split; [reflexivity |]. split; [reflexivity |].
  intros H. apply before_precedes in H. discriminate H.
Qed.

Lemma attempt_name s d k i e : step_name (attempt s d k i e) = name s.
Proof.
  revert i e. induction k as [| k IH]; intros i e; simpl; [reflexivity |].
  destruct (fetch_function s d i); [reflexivity | apply IH].
Qed.

Lemma execute_name s d : step_name (execute s d) = name s.
Proof.
  unfold execute. destruct (negb (enabled s)); [reflexivity | apply attempt_name].
Qed.

Lemma get_step_name self n s : get_step self n = Some s -> name s = n.
Proof. intros H. apply (find_step_name _ _ _ H). Qed.

Lemma merge_results record r :
  enrichment_results (merge_enrichment record r) = enrichment_results record ++ [r].
Proof. reflexivity. Qed.


(** No result names anything but a step, so a dependency that names no
    step is never met, and the step that declares it is recorded as
    skipped. *)
Lemma enrich_from_dangling self order :
  forall record,
    (forall r, In r (enrichment_results record) ->
       is_Some (get_step self (step_name r))) ->
    forall r, In r (enrichment_results (enrich_from self order record)) ->
      In r (enrichment_results record) \/
      forall s d,
        get_step self (step_name r) = Some s -> In d (depends_on s) ->
        get_step self d = None ->
        r = skipped_result (name s).
Proof.
  induction order as [| n order IH]; intros record Hnames r Hr; simpl in Hr.
  - left. exact Hr.
  - destruct (get_step self n) as [s |] eqn:Hs; [| apply (IH record Hnames r Hr)].
    pose proof (get_step_name _ _ _ Hs) as Hname.
    assert (Hcons : forall r0 record',
               step_name r0 = n ->
               (forall d, In d (depends_on s) -> get_step self d = None ->
                  r0 = skipped_result (name s)) ->
               enrichment_results record' = enrichment_results record ++ [r0] ->
               In r (enrichment_results (enrich_from self order record')) ->
               In r (enrichment_results record) \/
               forall s' d,
                 get_step self (step_name r) = Some s' -> In d (depends_on s') ->
                 get_step self d = None -> r = skipped_result (name s')).
    { intros r0 record' Hr0 Hskip Hres Hin.
      destruct (IH record') with (r := r) as [Hold | Hnew]; [| exact Hin | | right; exact Hnew].
      - intros x Hx. rewrite Hres in Hx. apply in_app_or in Hx as [Hx | [<- | []]].
        + apply Hnames, Hx.
        + rewrite Hr0, Hs. eexists. reflexivity.
      - rewrite Hres in Hold. apply in_app_or in Hold as [Hold | [<- | []]].
        + left. exact Hold.
        + right. intros s' d Hs' Hd Hnone. rewrite Hr0, Hs in Hs'.
          injection Hs' as <-. apply (Hskip d Hd Hnone). }
    assert (Hmet : deps_met s record = true ->
                   forall d, In d (depends_on s) -> get_step self d = None -> False).
    { unfold deps_met. rewrite forallb_forall. intros Hall d Hd Hnone.
      specialize (Hall d Hd). apply existsb_exists in Hall as (x & Hx & Hxd).
      apply andb_prop in Hxd as [Hxd _]. apply String.eqb_eq in Hxd.
      destruct (Hnames x Hx) as [sx Hsx]. congruence. }
    destruct (deps_met s record) eqn:Hdeps; simpl in Hr.
    + destruct (required s && status_eqb (status (execute s (all_data record))) FAILED).
      * rewrite merge_results in Hr.
        apply in_app_or in Hr as [Hr | [<- | []]]; [left; exact Hr |].
        right. intros s' d Hs' Hd Hnone. rewrite execute_name, Hname, Hs in Hs'.
        injection Hs' as <-. destruct (Hmet eq_refl d Hd Hnone).
      * refine (Hcons (execute s (all_data record)) _ _ _ _ Hr).
        -- rewrite execute_name. exact Hname.
        -- intros d Hd Hnone. destruct (Hmet eq_refl d Hd Hnone).
        -- reflexivity.
    + refine (Hcons (skipped_result (name s)) _ _ _ _ Hr).
      * exact Hname.
      * reflexivity.
      * reflexivity.
Qed.

Lemma find_step_app l step n :
  find_step (l ++ [step]) n
  = match find_step l n with
    | Some s => Some s
    | None => if String.eqb (name step) n then Some step else None
    end.
Proof.
  unfold find_step. induction l as [| x l IH]; simpl.
  - reflexivity.
  - destruct (String.eqb (name x) n); [reflexivity | exact IH].
Qed.

Lemma add_step_eq self step :
  exists st,
    traverse (steps self ++ [step]) = Some st /\
    add_step self step
    = {| pipeline_name := pipeline_name self; steps := steps self ++ [step];
         _step_order := st.2 |}.
Proof.
  unfold add_step.
  destruct (recalculate_order_eq
              {| pipeline_name := pipeline_name self; steps := steps self ++ [step];
                 _step_order := _step_order self |}) as (st & Hst & Heq).
  exists st. split; [exact Hst | exact Heq].
Qed.

(** C7, as the code has it.  [add_step] accepts a step whose [depends_on]
    names no step of the pipeline: the step joins the pipeline and the
    execution order, the unknown name is left out of the order, and every
    result a run records for the step is SKIPPED with the error
    "Dependencies not met".  The step's name is taken to be new to the
    pipeline. *)
Theorem dangling_dependency_is_skipped (self : EnrichmentPipeline)
    (step : EnrichmentStep) (dep : string) (pid : Value) (initial : Dict) :
  In dep (depends_on step) ->
  get_step (add_step self step) dep = None ->
  get_step self (name step) = None ->
  let p := add_step self step in
  steps p = steps self ++ [step] /\
  In (name step) (_step_order p) /\
  ~ In dep (_step_order p) /\
  forall r, In r (enrichment_results (enrich p pid initial)) ->
    step_name r = name step ->
    r = skipped_result (name step).
Proof.
  intros Hdep Hdangling Hfresh p.
  destruct (add_step_eq self step) as (st & Hst & Heq).
  assert (Hsteps : steps p = steps self ++ [step]) by (subst p; rewrite Heq; reflexivity).
  assert (Horder : _step_order p = st.2) by (subst p; rewrite Heq; reflexivity).
  assert (Hget : get_step p (name step) = Some step).
  { unfold get_step in *. rewrite Hsteps, find_step_app, Hfresh, String.eqb_refl.
    reflexivity. }
  destruct (traverse_covers _ _ Hst) as [_ Hcover].
  split; [exact Hsteps |]. rewrite Horder. split; [| split].
  - apply Hcover. unfold is_step. rewrite <- Hsteps. eexists. exact Hget.
  - intros Hin. apply Hcover in Hin as [s Hs].
    unfold get_step in Hdangling. fold p in Hdangling. rewrite Hsteps in Hdangling.
    congruence.
  - intros r Hr Hname. unfold enrich in Hr.
    destruct (enrich_from_dangling p (_step_order p)
                {| prospect_id := pid; initial_data := initial;
                   enriched_data := ∅; enrichment_results := [] |}
                (fun r0 (H : False) => match H with end) r Hr)
      as [[] | Hskip].
    apply (Hskip step dep); [rewrite Hname; exact Hget | exact Hdep | exact Hdangling].
Qed.

Lemma dangling_dependency_is_skipped_witness :
  let p := add_step (new_pipeline "default") Samples.step_tech in
  steps p = steps (new_pipeline "default") ++ [Samples.step_tech] /\
  In (name Samples.step_tech) (_step_order p) /\
  ~ In "company_basics" (_step_order p) /\
  forall r, In r (enrichment_results (enrich p (VStr "acme") ∅)) ->
    step_name r = name Samples.step_tech ->
    r = skipped_result (name Samples.step_tech).
Proof.
  apply (dangling_dependency_is_skipped (new_pipeline "default") Samples.step_tech
           "company_basics" (VStr "acme") ∅).
  - left. reflexivity.
  - reflexivity.
  - reflexivity.
Defined.

(** C7, as stated, fails: a pipeline is built from a step that depends on
    the unknown name "company_basics"; the reference surfaces only in the
    run, as a skipped step. *)
Lemma dangling_dependency_is_accepted :
  steps Samples.pipeline_dangling = [Samples.step_tech] /\
  In "company_basics" (depends_on Samples.step_tech) /\
  get_step Samples.pipeline_dangling "company_basics" = None /\
  _step_order Samples.pipeline_dangling = ["tech_stack"] /\
  enrichment_results (enrich Samples.pipeline_dangling (VStr "acme") ∅)
  = [skipped_result "tech_stack"].
Proof.
  split; [reflexivity |]. split; [left; reflexivity |].
  split; [reflexivity |]. split; reflexivity.
Qed.


(** Scenario C: A completes, B fails after its retries, C has no result. *)
Example scenario_c_run :
  map (fun r => (step_name r, status r, error r))
      (enrichment_results (enrich Samples.pipeline_c (VStr "acme") ∅))
  = [("A", COMPLETED, None); ("B", FAILED, Some "connection refused")].
Proof. reflexivity. Qed.

(** Scenario D: B fails, C runs all the same. *)
Example scenario_d_run :
  map (fun r => (step_name r, status r))
      (enrichment_results (enrich Samples.pipeline_d (VStr "acme") ∅))
  = [("A", COMPLETED); ("B", FAILED); ("C", COMPLETED)].
Proof. reflexivity. Qed.


End EnrichmentFacts.

(** * Further properties *)

(** ** The condition evaluator: operators that negate each other *)

Module ConditionExtras.
Import Recipes RecipeNotions Samples.






Section Pairs.
Variable render : Value -> string.
Variable now : Z.

Local Abbreviation eval := (RecipeCondition_evaluate render now).


(** X2.  NOT_EQUALS, NOT_CONTAINS and NOT_IN_LIST negate EQUALS, CONTAINS
    and IN_LIST only on a record where the field is present; where it is
    missing both the operator and its negation are [False].  NOT_EXISTS
    negates EXISTS on every record. *)
Theorem negation_needs_field (c : RecipeCondition) (data : Dict)
    (op' : ConditionOperator) :
  negation_of (operator c) = Some op' ->
  (operator c = EXISTS \/ dict_get data (field c) <> VNone ->
   eval (with_operator c op') data = negated (eval c data)) /\
  (operator c <> EXISTS -> dict_get data (field c) = VNone ->
   eval c data = Ok false /\ eval (with_operator c op') data = Ok false).
Proof.
  intros Hop. unfold RecipeCondition_evaluate, with_operator. simpl. split.
  - intros Hcase.
    destruct (operator c) eqn:Ho; simpl in Hop; try discriminate Hop;
      injection Hop as <-; simpl;
      try (destruct Hcase as [Hcase | Hcase]; [discriminate Hcase |];
           destruct (dict_get data (field c)); try congruence; simpl;
           unfold negated, py_not_in; simpl; try reflexivity;
           match goal with
           | |- context [py_in ?x ?y] => destruct (py_in x y); reflexivity
           end).
    unfold negated. simpl. rewrite negb_involutive. reflexivity.
  - intros Hne Hmissing. rewrite Hmissing.
    destruct (operator c); simpl in Hop; try discriminate Hop;
      injection Hop as <-; try congruence; split; reflexivity.
Qed.

End Pairs.


Lemma negation_needs_field_witness :
  (EQUALS = EXISTS \/ dict_get record_b "has_tool" <> VNone ->
   RecipeCondition_evaluate render_none 0
     (with_operator (cond "has_tool" EQUALS (VBool true)) NOT_EQUALS) record_b
   = negated (RecipeCondition_evaluate render_none 0
                (cond "has_tool" EQUALS (VBool true)) record_b)) /\
  (EQUALS <> EXISTS -> dict_get record_b "has_tool" = VNone ->
   RecipeCondition_evaluate render_none 0
     (cond "has_tool" EQUALS (VBool true)) record_b = Ok false /\
   RecipeCondition_evaluate render_none 0
     (with_operator (cond "has_tool" EQUALS (VBool true)) NOT_EQUALS) record_b
   = Ok false).
Proof.
  apply (negation_needs_field render_none 0
           (cond "has_tool" EQUALS (VBool true)) record_b NOT_EQUALS).
  reflexivity.
Defined.

(** A missing field is neither equal nor unequal to a value. *)
Example not_equals_on_missing_field :
  RecipeCondition_evaluate render_none 0 (cond "tier" NOT_EQUALS (VStr "gold")) ∅
  = Ok false.
Proof. reflexivity. Qed.

End ConditionExtras.

(** ** The recipe engine: sources, the second phase, the builder *)

Module RecipeExtras.
Import Recipes RecipeNotions Samples.

Lemma fold_ingredient_sources (l : list DataIngredient) (acc : gset string) s :
  s ∈ fold_left
        (fun (sources : gset string) ingredient =>
           if ingredient_required ingredient
           then {[ ingredient_source ingredient ]} ∪ sources
           else sources) l acc
  <-> s ∈ acc \/
      exists i, In i l /\ ingredient_required i = true /\ ingredient_source i = s.
Proof.
  revert acc. induction l as [| i l IH]; intros acc; simpl.
  - split; [tauto | intros [H | (i & [] & _)]; exact H].
  - rewrite IH. destruct (ingredient_required i) eqn:Hreq.
    + rewrite elem_of_union, elem_of_singleton. split.
      * intros [[-> | H] | (j & Hj & Hr & Hs)].
        -- right. exists i. auto.
        -- left. exact H.
        -- right. exists j. auto.
      * intros [H | (j & [<- | Hj] & Hr & Hs)].
        -- left. right. exact H.
        -- left. left. symmetry. exact Hs.
        -- right. exists j. auto.
    + split.
      * intros [H | (j & Hj & Hr & Hs)]; [left; exact H | right; exists j; auto].
      * intros [H | (j & [<- | Hj] & Hr & Hs)];
          [left; exact H | congruence | right; exists j; auto].
Qed.

Lemma fold_condition_sources (l : list RecipeCondition) (acc : gset string) s :
  s ∈ fold_left
        (fun (sources : gset string) condition =>
           match source condition with
           | Some s => if String.eqb s "" then sources else {[ s ]} ∪ sources
           | None => sources
           end) l acc
  <-> s ∈ acc \/ exists c, In c l /\ source c = Some s /\ s <> "".
Proof.
  revert acc. induction l as [| c l IH]; intros acc; simpl.
  - split; [tauto | intros [H | (c & [] & _)]; exact H].
  - rewrite IH. destruct (source c) as [t |] eqn:Hsrc.
    + destruct (String.eqb t "") eqn:Ht.
      * apply String.eqb_eq in Ht. subst t. split.
        -- intros [H | (j & Hj & Hs & Hne)]; [left; exact H | right; exists j; auto].
        -- intros [H | (j & [<- | Hj] & Hs & Hne)];
             [left; exact H | congruence | right; exists j; auto].
      * apply String.eqb_neq in Ht.
        rewrite elem_of_union, elem_of_singleton. split.
        -- intros [[-> | H] | (j & Hj & Hs & Hne)].
           ++ right. exists c. auto.
           ++ left. exact H.
           ++ right. exists j. auto.
        -- intros [H | (j & [<- | Hj] & Hs & Hne)].
           ++ left. right. exact H.
           ++ left. left. congruence.
           ++ right. exists j. auto.
    + split.
      * intros [H | (j & Hj & Hs & Hne)]; [left; exact H | right; exists j; auto].
      * intros [H | (j & [<- | Hj] & Hs & Hne)];
          [left; exact H | congruence | right; exists j; auto].
Qed.

(** X3.  [get_required_sources] lists, each once, exactly the sources of
    the ingredients marked required and the sources tagged on required
    conditions; a condition whose source is [None] or the empty string
    adds nothing, and optional conditions are not consulted. *)
Theorem required_sources_exact (self : DataRecipe) :
  NoDup (get_required_sources self) /\
  forall s,
    In s (get_required_sources self) <->
    (exists i, In i (ingredients self) /\ ingredient_required i = true /\
               ingredient_source i = s) \/
    (exists c, In c (required_conditions self) /\ source c = Some s /\ s <> "").
Proof.
  unfold get_required_sources. split; [apply NoDup_elements |].
  intros s. rewrite <- list_elem_of_In, elem_of_elements.
  unfold required_source_set. rewrite fold_condition_sources, fold_ingredient_sources.
  rewrite elem_of_empty. tauto.
Qed.

Section Engine.
Variable render : Value -> string.
Variable now : Z.

Local Abbreviation eval := (RecipeCondition_evaluate render now).

Lemma all_conditions_all_true from conds data :
  Forall (fun c => eval c data = Ok true) conds ->
  all_conditions render now from conds data = (map (pair from) conds, Ok true).
Proof.
  induction 1 as [| c conds Hc _ IH]; cbn [all_conditions map];
    unfold tbind, eval_condition.
  - reflexivity.
  - rewrite Hc, IH. reflexivity.
Qed.

Lemma conditions_met_returns from conds data :
  Forall (fun c => eval c data <> TypeError) conds ->
  conditions_met render now from conds data
  = (map (pair from) conds, Ok (holding render now data conds)).
Proof.
  induction 1 as [| c conds Hc _ IH]; cbn [conditions_met map holding List.filter];
    unfold tbind, eval_condition.
  - reflexivity.
  - fold (holding render now data conds). rewrite IH.
    destruct (eval c data) as [[|] |]; [| | congruence];
      simpl; rewrite app_nil_r; reflexivity.
Qed.

Lemma conditions_met_raises from pre c post data :
  Forall (fun c' => eval c' data <> TypeError) pre ->
  eval c data = TypeError ->
  conditions_met render now from (pre ++ c :: post) data
  = (map (pair from) (pre ++ [c]), TypeError).
Proof.
  intros Hpre Hc.
  induction Hpre as [| c' pre Hc' _ IH]; cbn [conditions_met map app];
    unfold tbind, eval_condition.
  - rewrite Hc. reflexivity.
  - rewrite IH. destruct (eval c' data) as [[|] |]; [| | congruence]; reflexivity.
Qed.

Lemma score_components_returns components data :
  Forall (fun comp => eval (condition comp) data <> TypeError) components ->
  forall total details,
    score_components render now components data total details
    = (map (fun comp => (Component, condition comp)) components,
       Ok (total + total_points (triggered render now data components),
           details ++ map (fun comp => (name comp, points comp))
                          (triggered render now data components))).
Proof.
  induction 1 as [| comp components Hc _ IH]; intros total details;
    cbn [score_components map triggered List.filter];
    unfold tbind, eval_condition.
  - simpl. rewrite app_nil_r, Z.add_0_r. reflexivity.
  - fold (triggered render now data components).
    destruct (eval (condition comp) data) as [[|] |]; [| | congruence];
      rewrite IH; cbn [is_true total_points fold_right map].
    + fold (total_points (triggered render now data components)).
      rewrite <- app_assoc. cbn [app]. f_equal. f_equal. f_equal. lia.
    + reflexivity.
Qed.

(** What the scoring loop returns, whenever it returns. *)
Lemma score_components_sound components data :
  forall total details log total' details',
    score_components render now components data total details
    = (log, Ok (total', details')) ->
    total' = total + total_points (triggered render now data components) /\
    total' <= total + attainable_points components.
Proof.
  induction components as [| comp components IH]; intros total details log total' details';
    cbn [score_components triggered List.filter attainable_points fold_right];
    unfold tbind, eval_condition.
  - intros H. injection H as _ <- _. simpl. lia.
  - fold (attainable_points components).
    fold (triggered render now data components).
    destruct (eval (condition comp) data) as [[|] |]; [| | discriminate].
    + destruct (score_components render now components data (total + points comp) _)
        as [log' [[t d] |]] eqn:Hrun; [| discriminate].
      intros H. injection H as _ <- _.
      destruct (IH _ _ _ _ _ Hrun) as [Heq Hle].
      cbn [is_true total_points fold_right].
      fold (total_points (triggered render now data components)). lia.
    + destruct (score_components render now components data total details)
        as [log' [[t d] |]] eqn:Hrun; [| discriminate].
      intros H. injection H as _ <- _.
      destruct (IH _ _ _ _ _ Hrun) as [Heq Hle].
      cbn [is_true]. lia.
Qed.

(** [all] answers [True] only when every condition did. *)
Lemma all_conditions_true_inv from conds data log :
  all_conditions render now from conds data = (log, Ok true) ->
  Forall (fun c => eval c data = Ok true) conds.
Proof.
  revert log. induction conds as [| c conds IH]; intros log; cbn [all_conditions];
    unfold tbind, eval_condition.
  - constructor.
  - destruct (eval c data) as [[|] |] eqn:Hc; [| discriminate..].
    destruct (all_conditions render now from conds data) as [log' r] eqn:Hrun.
    intros H. injection H as _ ->. constructor; [exact Hc | apply (IH log' eq_refl)].
Qed.

(** X4.  When every required condition holds and no optional or scoring
    condition raises, [DataRecipe.evaluate] evaluates every condition once,
    required first, then optional, then the components'; the score is the
    sum of the points of the components whose condition holds,
    [matches] is [score >= score_threshold], [output_segment] is filled
    only on a match, and the optional conditions only count. *)
Theorem second_phase_scores (self : DataRecipe) (data : Dict) :
  Forall (fun c => eval c data = Ok true) (required_conditions self) ->
  Forall (fun c => eval c data <> TypeError) (optional_conditions self) ->
  Forall (fun comp => eval (condition comp) data <> TypeError)
    (scoring_components self) ->
  DataRecipe_evaluate render now self data
  = (map (pair Required) (required_conditions self)
       ++ map (pair Optional) (optional_conditions self)
       ++ map (fun comp => (Component, condition comp)) (scoring_components self),
     Ok (acceptance self
           (holding render now data (optional_conditions self))
           (triggered render now data (scoring_components self)))).
Proof.
  intros Hreq Hopt Hcomp. unfold DataRecipe_evaluate.
  rewrite (all_conditions_all_true Required _ _ Hreq).
  cbn [tbind negb].
  rewrite (conditions_met_returns Optional _ _ Hopt).
  cbn [tbind].
  rewrite (score_components_returns _ _ Hcomp 0 []).
  unfold tbind, ret. cbn [fst snd app]. rewrite app_nil_r, Z.add_0_l.
  reflexivity.
Qed.

(** X5.  An optional condition gates nothing, but it is evaluated: when
    every required condition holds and an optional condition raises,
    [DataRecipe.evaluate] raises, before any scoring component is
    looked at. *)
Theorem optional_raise_aborts (self : DataRecipe) (data : Dict) pre c post :
  Forall (fun c' => eval c' data = Ok true) (required_conditions self) ->
  optional_conditions self = pre ++ c :: post ->
  Forall (fun c' => eval c' data <> TypeError) pre ->
  eval c data = TypeError ->
  DataRecipe_evaluate render now self data
  = (map (pair Required) (required_conditions self)
       ++ map (pair Optional) (pre ++ [c]),
     TypeError).
Proof.
  intros Hreq Hopt Hpre Hc. unfold DataRecipe_evaluate.
  rewrite (all_conditions_all_true Required _ _ Hreq).
  cbn [tbind negb].
  rewrite Hopt, (conditions_met_raises Optional _ _ _ _ Hpre Hc).
  reflexivity.
Qed.


(** X7.  A match is sound: if [DataRecipe.evaluate] returns
    [matches=True], then every required condition holds on the record, the
    score is the sum of the points of the components whose condition
    holds, it reaches the threshold, and [output_segment] is the recipe's
    segment. *)
Theorem match_is_sound (self : DataRecipe) (data : Dict) log ev :
  DataRecipe_evaluate render now self data = (log, Ok ev) ->
  matches ev = true ->
  Forall (fun c => eval c data = Ok true) (required_conditions self) /\
  score ev = total_points (triggered render now data (scoring_components self)) /\
  score_threshold self <= score ev /\
  res_output_segment ev = Some (Some (output_segment self)).
Proof.
  unfold DataRecipe_evaluate.
  destruct (all_conditions render now Required (required_conditions self) data)
    as [log1 [[|] |]] eqn:Hall; cbn [tbind negb]; [| | discriminate].
  - destruct (conditions_met render now Optional (optional_conditions self) data)
      as [log2 [met |]] eqn:Hmet; cbn [tbind]; [| discriminate].
    destruct (score_components render now (scoring_components self) data 0 [])
      as [log3 [[total details] |]] eqn:Hscore; cbn [tbind]; [| discriminate].
    intros H. injection H as _ <-. cbn [score matches res_output_segment fst].
    intros Hm.
    destruct (score_components_sound _ _ _ _ _ _ _ Hscore) as [Heq _].
    split; [apply (all_conditions_true_inv _ _ _ _ Hall) |].
    split; [lia |]. split; [apply Z.leb_le, Hm |].
    rewrite Hm. reflexivity.
  - intros H. injection H as _ <-. cbn [matches]. discriminate.
Qed.

End Engine.

Lemma second_phase_scores_witness :
  DataRecipe_evaluate render_none 0 deadline_recipe record_a
  = (map (pair Required) (required_conditions deadline_recipe)
       ++ map (pair Optional) (optional_conditions deadline_recipe)
       ++ map (fun comp => (Component, condition comp))
            (scoring_components deadline_recipe),
     Ok (acceptance deadline_recipe
           (holding render_none 0 record_a (optional_conditions deadline_recipe))
           (triggered render_none 0 record_a (scoring_components deadline_recipe)))).
Proof.
  apply second_phase_scores.
  - repeat constructor.
  - constructor.
  - repeat constructor; discriminate.
Defined.

Lemma optional_raise_aborts_witness :
  DataRecipe_evaluate render_none 0
    (recipe [deadline_under_90] [employees_over_50] [] 0)
    {[ "days_to_deadline" := VInt 45; "employee_count" := VStr "200" ]}
  = (map (pair Required) [deadline_under_90]
       ++ map (pair Optional) ([] ++ [employees_over_50]),
     TypeError).
Proof.
  apply (optional_raise_aborts render_none 0
           (recipe [deadline_under_90] [employees_over_50] [] 0)
           {[ "days_to_deadline" := VInt 45; "employee_count" := VStr "200" ]}
           [] employees_over_50 []).
  - repeat constructor.
  - reflexivity.
  - constructor.
  - reflexivity.
Defined.


Lemma match_is_sound_witness :
  Forall (fun c => RecipeCondition_evaluate render_none 0 c record_a = Ok true)
    (required_conditions deadline_recipe) /\
  score (acceptance deadline_recipe []
           (triggered render_none 0 record_a (scoring_components deadline_recipe)))
  = total_points (triggered render_none 0 record_a (scoring_components deadline_recipe)) /\
  score_threshold deadline_recipe
  <= score (acceptance deadline_recipe []
              (triggered render_none 0 record_a (scoring_components deadline_recipe))) /\
  res_output_segment
    (acceptance deadline_recipe []
       (triggered render_none 0 record_a (scoring_components deadline_recipe)))
  = Some (Some (output_segment deadline_recipe)).
Proof.
  apply (match_is_sound render_none 0 deadline_recipe record_a
           (fst (DataRecipe_evaluate render_none 0 deadline_recipe record_a))).
  - reflexivity.
  - reflexivity.
Defined.

(** *** The builder *)

Lemma add_conditions_lists calls :
  forall b,
    RecipeBuilder._required_conditions (add_conditions calls b)
    = RecipeBuilder._required_conditions b
        ++ map condition_of (List.filter call_required calls) /\
    RecipeBuilder._optional_conditions (add_conditions calls b)
    = RecipeBuilder._optional_conditions b
        ++ map condition_of (List.filter (fun call => negb (call_required call)) calls) /\
    RecipeBuilder._scoring_components (add_conditions calls b)
    = RecipeBuilder._scoring_components b /\
    RecipeBuilder._score_threshold (add_conditions calls b)
    = RecipeBuilder._score_threshold b.
Proof.
  induction calls as [| call calls IH]; intros b; cbn [add_conditions fold_left].
  - rewrite !app_nil_r. auto.
  - fold (add_conditions calls
            (RecipeBuilder.add_condition (call_field call) (call_operator call)
               (call_value call) (call_source call) (call_required call) b)).
    destruct (IH (RecipeBuilder.add_condition (call_field call) (call_operator call)
                    (call_value call) (call_source call) (call_required call) b))
      as (Hr & Ho & Hs & Ht).
    rewrite Hr, Ho, Hs, Ht. cbn [List.filter].
    destruct (call_required call); cbn [RecipeBuilder.add_condition
      RecipeBuilder._required_conditions RecipeBuilder._optional_conditions
      RecipeBuilder._scoring_components RecipeBuilder._score_threshold negb map];
      rewrite <- ?app_assoc; auto.
Qed.

(** X8.  A builder keeps the conditions in the order of the calls: the
    calls with [required=True] become the required conditions of the
    recipe and the others its optional conditions, after whatever the
    builder already held; [build] leaves the builder as new, so nothing of
    one recipe reaches the next. *)
Theorem builder_routes_conditions (calls : list condition_call)
    (b : RecipeBuilder.DataRecipeBuilder) :
  let built := RecipeBuilder.build (add_conditions calls b) in
  required_conditions (fst built)
  = RecipeBuilder._required_conditions b
      ++ map condition_of (List.filter call_required calls) /\
  optional_conditions (fst built)
  = RecipeBuilder._optional_conditions b
      ++ map condition_of (List.filter (fun call => negb (call_required call)) calls) /\
  scoring_components (fst built) = RecipeBuilder._scoring_components b /\
  score_threshold (fst built) = RecipeBuilder._score_threshold b /\
  snd built = RecipeBuilder._reset /\
  fst (RecipeBuilder.build (snd built))
  = fst (RecipeBuilder.build RecipeBuilder._reset).
Proof.
  destruct (add_conditions_lists calls b) as (Hr & Ho & Hs & Ht).
  cbn [RecipeBuilder.build fst snd required_conditions optional_conditions
       scoring_components score_threshold].
  auto 10.
Qed.

(** The deadline template: three required conditions, 100 points to win. *)
Example deadline_template :
  map field (required_conditions RecipeBuilder.create_deadline_collision_recipe)
  = ["days_to_deadline"; "has_relevant_posting"; "employee_count"] /\
  attainable_points (scoring_components RecipeBuilder.create_deadline_collision_recipe)
  = 100 /\
  Permutation (get_required_sources RecipeBuilder.create_deadline_collision_recipe)
    ["sam_gov"; "linkedin_jobs"; "builtwith"].
Proof.
  split; [reflexivity |]. split; [reflexivity |].
  vm_compute. repeat constructor.
Qed.

End RecipeExtras.

(** ** The scoring engine: categories, composition, bounds, thresholds *)

Module ScoringExtras.
Import Scoring ScoringNotions Samples.

Lemma category_sum_none key data rules :
  existsb (applies_in key data) rules = false -> category_sum key data rules = 0.
Proof.
  unfold category_sum, sum_Z.
  induction rules as [| rule rules IH]; cbn [existsb map fold_right]; [reflexivity |].
  intros H. apply orb_false_iff in H as [Hr Hrest]. rewrite (IH Hrest).
  unfold applies_in in Hr. unfold contribution, ScoringRule_evaluate.
  destruct (condition rule data); simpl in *.
  - rewrite Hr. reflexivity.
  - destruct (String.eqb _ key); reflexivity.
Qed.

Lemma fold_categories data key rules :
  forall t,
    t_category_scores (fold_left (score_rule data) rules t) !! key
    = if existsb (applies_in key data) rules
      then Some (default 0 (t_category_scores t !! key) + category_sum key data rules)
      else t_category_scores t !! key.
Proof.
  induction rules as [| rule rules IH]; intros t; cbn [fold_left existsb].
  - reflexivity.
  - rewrite IH. unfold category_sum. cbn [map]. unfold sum_Z at 2. cbn [fold_right].
    fold (sum_Z (map (fun rule0 =>
                        if String.eqb (category_value (category rule0)) key
                        then contribution rule0 data else 0) rules)).
    fold (category_sum key data rules).
    unfold score_rule, applies_in at 2, contribution, ScoringRule_evaluate.
    destruct (condition rule data) eqn:Hc; cbn [applies weighted_score
      result_category t_category_scores andb orb].
    + destruct (String.eqb (category_value (category rule)) key) eqn:Hk.
      * apply String.eqb_eq in Hk. subst key. rewrite lookup_insert_eq.
        cbn [default orb]. unfold id.
        destruct (existsb _ rules) eqn:He.
        -- f_equal. lia.
        -- rewrite (category_sum_none _ _ _ He). f_equal. lia.
      * apply String.eqb_neq in Hk. rewrite lookup_insert_ne by exact Hk.
        cbn [orb]. destruct (existsb _ rules); [f_equal; lia | reflexivity].
    + destruct (String.eqb (category_value (category rule)) key);
        destruct (existsb _ rules); try reflexivity; f_equal; lia.
Qed.

Lemma category_sums_total data rules :
  sum_Z (map (fun c => category_sum (category_value c) data rules) all_categories)
  = sum_Z (map (fun r => contribution r data) rules).
Proof.
  unfold all_categories, category_sum. cbn [map]. unfold sum_Z.
  induction rules as [| rule rules IH]; cbn [map fold_right category_value] in *;
    [reflexivity |].
  destruct (category rule); simpl String.eqb; cbv iota; lia.
Qed.

(** X9.  The category buckets partition the total: a bucket exists exactly
    for the categories in which some rule's guard applied, it holds the sum
    of what those rules contributed, and the buckets add up to
    [total_score]. *)
Theorem categories_partition_total (self : ProspectScorer) (pid : Value) (data : Dict) :
  let s := score_prospect self pid data in
  (forall key,
     category_scores s !! key
     = if existsb (applies_in key data) (rules self)
       then Some (category_sum key data (rules self))
       else None) /\
  sum_Z (map (fun c => default 0 (category_scores s !! category_value c)) all_categories)
  = total_score s.
Proof.
  intros s.
  assert (Hkey : forall key,
             category_scores s !! key
             = if existsb (applies_in key data) (rules self)
               then Some (category_sum key data (rules self))
               else None).
  { intros key. subst s. unfold score_prospect. cbn [category_scores].
    rewrite fold_categories. cbn [tally0 t_category_scores].
    rewrite lookup_empty. reflexivity. }
  split; [exact Hkey |].
  destruct (ScoringFacts.tally_fold data (rules self) tally0) as (Ht & _ & _).
  subst s. unfold score_prospect in *. cbn [total_score category_scores] in *.
  rewrite Ht. cbn [tally0 t_total_score]. rewrite Z.add_0_l.
  rewrite <- category_sums_total. f_equal. apply map_ext. intros c.
  rewrite Hkey.
  destruct (existsb (applies_in (category_value c) data) (rules self)) eqn:He.
  - reflexivity.
  - rewrite (category_sum_none _ _ _ He). reflexivity.
Qed.

(** X10.  Adding a rule leaves what the earlier rules gave as it is: the
    new total is the old total plus the contribution of the new rule,
    [max_possible] grows by its [max_points], and its result is appended
    to the rule results. *)
Theorem add_rule_extends_score (self : ProspectScorer) (rule : ScoringRule)
    (pid : Value) (data : Dict) :
  let before := score_prospect self pid data in
  let after := score_prospect (add_rule self rule) pid data in
  total_score after = total_score before + contribution rule data /\
  max_possible after = max_possible before + max_points rule /\
  rule_results after = rule_results before ++ [ScoringRule_evaluate rule data] /\
  threshold_used after = threshold_used before.
Proof.
  intros before after. subst before after. unfold score_prospect, add_rule.
  cbn [rules threshold total_score max_possible rule_results threshold_used].
  rewrite fold_left_app. cbn [fold_left].
  set (t := fold_left (score_rule data) (rules self) tally0).
  unfold score_rule, contribution.
  destruct (applies (ScoringRule_evaluate rule data));
    cbn [t_total_score t_max_possible t_rule_results];
    repeat split; lia.
Qed.

Lemma completeness_bounds data :
  (0 <= _calculate_data_completeness data <= 1)%Q.
Proof.
  unfold _calculate_data_completeness.
  set (present := length (List.filter (fun f => truthy (dict_get data f)) key_fields)).
  assert (Hle : (present <= length key_fields)%nat) by apply filter_length_le.
  change (length key_fields) with 7%nat in *.
  split.
  - apply Qle_shift_div_l; [reflexivity |]. rewrite Qmult_0_l.
    change 0%Q with (inject_Z 0). rewrite <- Zle_Qle. lia.
  - apply Qle_shift_div_r; [reflexivity |]. rewrite Qmult_1_l.
    rewrite <- Zle_Qle. lia.
Qed.

Lemma ratio_bounds (a b : Z) :
  0 <= a <= b -> 0 < b -> (0 <= inject_Z a / inject_Z b <= 1)%Q.
Proof.
  intros [Ha Hab] Hb.
  assert (Hb' : (0 < inject_Z b)%Q).
  { change 0%Q with (inject_Z 0). rewrite <- (Zlt_Qlt 0 b). exact Hb. }
  split.
  - apply Qle_shift_div_l; [exact Hb' |]. rewrite Qmult_0_l.
    change 0%Q with (inject_Z 0). rewrite <- (Zle_Qle 0 a). exact Ha.
  - apply Qle_shift_div_r; [exact Hb' |]. rewrite Qmult_1_l.
    rewrite <- Zle_Qle. exact Hab.
Qed.

(** X11.  The share of the key fields that are present lies between 0 and
    1.  When the total lies between 0 and [max_possible], [confidence]
    lies between 0 and 1 and [score_percentage] between 0 and 100; when
    [max_possible] is not positive (no rules, for one) both are 0, nothing
    is divided. *)
Theorem confidence_within_unit (self : ProspectScorer) (pid : Value) (data : Dict) :
  let s := score_prospect self pid data in
  0 <= total_score s <= max_possible s ->
  (0 <= _calculate_data_completeness data <= 1)%Q /\
  (0 <= confidence s <= 1)%Q /\
  (0 <= score_percentage s <= 100)%Q /\
  (max_possible s <= 0 ->
   (confidence s == 0)%Q /\ (score_percentage s == 0)%Q).
Proof.
  intros s Hrange.
  pose proof (completeness_bounds data) as Hdc.
  split; [exact Hdc |].
  unfold score_percentage. subst s. unfold score_prospect in *.
  cbn [confidence total_score max_possible] in *.
  set (t := fold_left (score_rule data) (rules self) tally0) in *.
  destruct (Z.ltb 0 (t_max_possible t)) eqn:Hpos.
  - apply Z.ltb_lt in Hpos.
    pose proof (ratio_bounds _ _ Hrange Hpos) as Hr.
    split; [| split].
    + split.
      * apply Qmult_le_0_compat; [apply Hdc | apply Hr].
      * apply (Qle_trans _ (1 * 1)%Q); [| discriminate].
        apply Qmult_le_compat_nonneg; [exact Hdc | exact Hr].
    + split.
      * apply Qmult_le_0_compat; [apply Hr | discriminate].
      * apply (Qle_trans _ (1 * 100)%Q); [| discriminate].
        apply Qmult_le_compat_nonneg; [exact Hr | split; discriminate].
    + intros Hle. lia.
  - split; [| split].
    + rewrite Qmult_0_r. split; discriminate.
    + split; discriminate.
    + intros _. split; [apply Qmult_0_r | reflexivity].
Qed.

Lemma confidence_within_unit_witness :
  let s := score_prospect two_rule_scorer (VStr "bolt") {[ "fit" := VInt 70 ]} in
  (0 <= _calculate_data_completeness {[ "fit" := VInt 70 ]} <= 1)%Q /\
  (0 <= confidence s <= 1)%Q /\
  (0 <= score_percentage s <= 100)%Q /\
  (max_possible s <= 0 ->
   (confidence s == 0)%Q /\ (score_percentage s == 0)%Q).
Proof.
  apply (confidence_within_unit two_rule_scorer (VStr "bolt") {[ "fit" := VInt 70 ]}).
  vm_compute. split; discriminate.
Defined.

(** An empty scorer: nothing to win, nothing divided. *)
Example empty_scorer :
  let s := score_prospect (new_scorer 70) (VStr "acme") {[ "fit" := VInt 70 ]} in
  (total_score s, max_possible s, qualifies s, score_percentage s)
  = (0, 0, false, 0%Q) /\
  (confidence s == 0)%Q.
Proof. split; reflexivity. Qed.

(** *** Thresholds *)

Lemma insert_desc_map {A B} (f : A -> B) (key : B -> Z) (key' : A -> Z) x l :
  (forall a, key (f a) = key' a) ->
  insert_desc key (f x) (map f l) = map f (insert_desc key' x l).
Proof.
  intros Hkey. induction l as [| y l IH]; cbn [insert_desc map].
  - reflexivity.
  - rewrite !Hkey. destruct (Z.leb (key' y) (key' x)); cbn [map].
    + reflexivity.
    + rewrite IH. reflexivity.
Qed.

Lemma sort_desc_map {A B} (f : A -> B) (key : B -> Z) (key' : A -> Z) l :
  (forall a, key (f a) = key' a) ->
  sort_desc key (map f l) = map f (sort_desc key' l).
Proof.
  intros Hkey. induction l as [| x l IH]; cbn [sort_desc fold_right map].
  - reflexivity.
  - fold (sort_desc key (map f l)). fold (sort_desc key' l).
    rewrite IH. apply insert_desc_map, Hkey.
Qed.

Lemma scores_from_rejudged self t id_field prospects :
  forall i,
    scores_from (with_threshold self t) id_field i prospects
    = map (rejudged t) (scores_from self id_field i prospects).
Proof.
  induction prospects as [| p rest IH]; intros i; cbn [scores_from map].
  - reflexivity.
  - rewrite IH. reflexivity.
Qed.

Lemma qualified_of_batch self t prospects id_field :
  map id_and_total (get_qualified_prospects (with_threshold self t) prospects id_field)
  = List.filter (fun p => Z.leb t (snd p))
      (map id_and_total (score_batch self prospects id_field)).
Proof.
  unfold get_qualified_prospects, score_batch.
  rewrite !ScoringFacts.score_each_spec. cbn [app length].
  rewrite scores_from_rejudged.
  rewrite (sort_desc_map (rejudged t) total_score total_score) by reflexivity.
  induction (sort_desc total_score (scores_from self id_field 0 prospects))
    as [| s l IH]; cbn [map List.filter].
  - reflexivity.
  - cbn [rejudged qualifies id_and_total snd total_score].
    destruct (Z.leb t (total_score s)); cbn [map]; rewrite IH; reflexivity.
Qed.

(** X12.  Raising the threshold only removes prospects: the prospects
    qualified at the higher threshold are those qualified at the lower one
    whose total reaches the higher threshold, in the same order. *)
Theorem higher_threshold_filters (self : ProspectScorer) (t1 t2 : Z)
    (prospects : list Dict) (id_field : string) :
  t1 <= t2 ->
  map id_and_total (get_qualified_prospects (with_threshold self t2) prospects id_field)
  = List.filter (fun p => Z.leb t2 (snd p))
      (map id_and_total
         (get_qualified_prospects (with_threshold self t1) prospects id_field)).
Proof.
  intros Hle. rewrite !qualified_of_batch.
  induction (map id_and_total (score_batch self prospects id_field))
    as [| p l IH]; cbn [List.filter].
  - reflexivity.
  - destruct (Z.leb t2 (snd p)) eqn:H2.
    + assert (Z.leb t1 (snd p) = true) as ->.
      { apply Z.leb_le. apply Z.leb_le in H2. lia. }
      cbn [List.filter]. rewrite H2, IH. reflexivity.
    + destruct (Z.leb t1 (snd p)); cbn [List.filter]; rewrite ?H2; exact IH.
Qed.

Lemma higher_threshold_filters_witness :
  map id_and_total (get_qualified_prospects (with_threshold two_rule_scorer 70) batch "id")
  = List.filter (fun p => Z.leb 70 (snd p))
      (map id_and_total
         (get_qualified_prospects (with_threshold two_rule_scorer 50) batch "id")).
Proof. apply higher_threshold_filters. lia. Defined.

End ScoringExtras.

(** ** The enrichment pipeline: steps, merging, runs, orders, statistics *)

Module EnrichmentExtras.
Import Enrichment EnrichmentNotions.
Local Open Scope nat_scope.

(** *** One step *)

Lemma attempt_first_success s input d :
  forall k remaining retries last_error,
    k < remaining ->
    (forall j, j < k -> exists e, fetch_function s input (retries + j) = Raises e) ->
    fetch_function s input (retries + k) = Returns d ->
    attempt s input remaining retries last_error
    = {| step_name := name s; status := COMPLETED; data := Some d; error := None |}.
Proof.
  induction k as [| k IH]; intros remaining retries last_error Hlt Hraise Hret;
    destruct remaining as [| remaining]; try lia; cbn [attempt].
  - rewrite Nat.add_0_r in Hret. rewrite Hret. reflexivity.
  - destruct (Hraise 0 ltac:(lia)) as [e He]. rewrite Nat.add_0_r in He. rewrite He.
    apply IH.
    + lia.
    + intros j Hj. destruct (Hraise (S j) ltac:(lia)) as [e' He'].
      exists e'. rewrite <- He'. f_equal. lia.
    + rewrite <- Hret. f_equal. lia.
Qed.

Lemma attempt_exhausted s input :
  forall remaining retries last_error,
    (forall j, j < remaining -> exists e, fetch_function s input (retries + j) = Raises e) ->
    let r := attempt s input remaining retries last_error in
    step_name r = name s /\ status r = FAILED /\ data r = None /\
    (remaining = 0 -> error r = last_error) /\
    (forall n e, remaining = S n ->
       fetch_function s input (retries + n) = Raises e -> error r = Some e).
Proof.
  induction remaining as [| remaining IH]; intros retries last_error Hraise;
    cbn [attempt].
  - repeat split; intros; discriminate.
  - destruct (Hraise 0 ltac:(lia)) as [e He]. rewrite Nat.add_0_r in He. rewrite He.
    destruct (IH (S retries) (Some e)) as (Hn & Hs & Hd & H0 & Hlast).
    { intros j Hj. destruct (Hraise (S j) ltac:(lia)) as [e' He'].
      exists e'. rewrite <- He'. f_equal. lia. }
    split; [exact Hn |]. split; [exact Hs |]. split; [exact Hd |].
    split; [intros; discriminate |].
    intros n e' Hrem Hn'. injection Hrem as ->.
    destruct n as [| n].
    + rewrite Nat.add_0_r in Hn'. rewrite (H0 eq_refl). congruence.
    + apply (Hlast n e' eq_refl). rewrite <- Hn'. f_equal. lia.
Qed.

(** X13.  An enabled step succeeds with the data of the first call of its
    fetch function that returns, provided that call is among the first
    [retry_count + 1]; what the function would do on later calls does not
    matter, and the errors of the earlier calls are dropped. *)
Theorem execute_first_success (s : EnrichmentStep) (input : Dict) (k : nat) (d : Dict) :
  enabled s = true ->
  k < attempts s ->
  (forall j, j < k -> exists e, fetch_function s input j = Raises e) ->
  fetch_function s input k = Returns d ->
  execute s input
  = {| step_name := name s; status := COMPLETED; data := Some d; error := None |}.
Proof.
  intros Hen Hk Hraise Hret. unfold execute. rewrite Hen. cbn [negb].
  apply (attempt_first_success s input d k); assumption.
Qed.

(** X14.  An enabled step fails exactly after [retry_count + 1] calls that
    all raise: the result is FAILED, carries no data, and its error is the
    text of the last exception.  With a negative [retry_count] the fetch
    function is not called at all and the error is [None]. *)
Theorem execute_exhausts_retries (s : EnrichmentStep) (input : Dict) :
  enabled s = true ->
  (forall j, j < attempts s -> exists e, fetch_function s input j = Raises e) ->
  let r := execute s input in
  step_name r = name s /\ status r = FAILED /\ data r = None /\
  ((retry_count s < 0)%Z -> error r = None) /\
  (forall e, (0 <= retry_count s)%Z ->
     fetch_function s input (Z.to_nat (retry_count s)) = Raises e ->
     error r = Some e).
Proof.
  intros Hen Hraise r. subst r. unfold execute. rewrite Hen. cbn [negb].
  destruct (attempt_exhausted s input (attempts s) 0 None Hraise)
    as (Hn & Hs & Hd & H0 & Hlast).
  fold (attempts s).
  split; [exact Hn |]. split; [exact Hs |]. split; [exact Hd |]. split.
  - intros Hneg. apply H0. unfold attempts. lia.
  - intros e Hpos He. apply (Hlast (Z.to_nat (retry_count s)) e).
    + unfold attempts. lia.
    + exact He.
Qed.

Lemma execute_first_success_witness :
  execute Samples.step_flaky ∅
  = {| step_name := name Samples.step_flaky; status := COMPLETED;
       data := Some {[ "funding" := VInt 5 ]}; error := None |}.
Proof.
  apply (execute_first_success Samples.step_flaky ∅ 2).
  - reflexivity.
  - vm_compute. lia.
  - intros j Hj. exists "timeout"%string.
    destruct j as [| [| j]]; [reflexivity | reflexivity | lia].
  - reflexivity.
Defined.

Lemma execute_exhausts_retries_witness :
  let r := execute Samples.step_b_required ∅ in
  step_name r = name Samples.step_b_required /\ status r = FAILED /\ data r = None /\
  ((retry_count Samples.step_b_required < 0)%Z -> error r = None) /\
  (forall e, (0 <= retry_count Samples.step_b_required)%Z ->
     fetch_function Samples.step_b_required ∅
       (Z.to_nat (retry_count Samples.step_b_required)) = Raises e ->
     error r = Some e).
Proof.
  apply (execute_exhausts_retries Samples.step_b_required ∅).
  - reflexivity.
  - intros j _. exists "connection refused"%string. reflexivity.
Defined.

(** A step told not to retry at all, [retry_count = -1], fails unheard. *)
Example no_attempt_at_all :
  execute
    {| name := "x"; source_name := ""; fields_to_fetch := [];
       fetch_function := Samples.fetch_field "x"; required := false;
       depends_on := []; timeout_seconds := 30; retry_count := (-1)%Z;
       enabled := true |} ∅
  = {| step_name := "x"; status := FAILED; data := None; error := None |}.
Proof. reflexivity. Qed.

(** *** Merging *)

(** X15.  Merging is last-writer-wins by key: after a COMPLETED result is
    merged, a key of its data reads as the result gives it and every other
    key reads as before; a result that is not COMPLETED, or has no data,
    changes no key.  The result is appended in either case and the initial
    data stay as they are. *)
Theorem merge_last_writer_wins (record : ProspectRecord) (r : EnrichmentResult)
    (key : string) :
  let merged := merge_enrichment record r in
  all_data merged !! key
  = match (if status_eqb (status r) COMPLETED then data r else None) with
    | Some d =>
        match d !! key with
        | Some v => Some v
        | None => all_data record !! key
        end
    | None => all_data record !! key
    end /\
  enrichment_results merged = enrichment_results record ++ [r] /\
  initial_data merged = initial_data record.
Proof.
  intros merged. subst merged. split; [| split; reflexivity].
  unfold merge_enrichment, all_data, has_data. cbn [enriched_data initial_data].
  destruct (status_eqb (status r) COMPLETED); [| reflexivity].
  destruct (data r) as [d |]; [| reflexivity].
  destruct (decide (d = ∅)) as [-> | Hne].
  - rewrite lookup_empty. reflexivity.
  - rewrite <- (assoc_L (∪)). rewrite (lookup_union d).
    destruct (d !! key) as [v |] eqn:Hd.
    + destruct ((enriched_data record ∪ initial_data record) !! key); reflexivity.
    + destruct ((enriched_data record ∪ initial_data record) !! key); reflexivity.
Qed.

(** *** Runs *)

Lemma replay_snoc results r :
  replay (results ++ [r])
  = match status_eqb (status r) COMPLETED, data r with
    | true, Some d => d ∪ replay results
    | _, _ => replay results
    end.
Proof. unfold replay. rewrite fold_left_app. reflexivity. Qed.

Lemma merge_replay record r :
  enriched_data record = replay (enrichment_results record) ->
  enriched_data (merge_enrichment record r)
  = replay (enrichment_results (merge_enrichment record r)).
Proof.
  intros Hinv. unfold merge_enrichment. cbn [enriched_data enrichment_results].
  rewrite replay_snoc, <- Hinv. unfold has_data.
  destruct (status_eqb (status r) COMPLETED); [| reflexivity].
  destruct (data r) as [d |]; [| reflexivity].
  destruct (decide (d = ∅)) as [-> | Hne]; [| reflexivity].
  rewrite (left_id_L ∅ (∪)). reflexivity.
Qed.

Lemma enrich_from_replay self order :
  forall record,
    enriched_data record = replay (enrichment_results record) ->
    let final := enrich_from self order record in
    enriched_data final = replay (enrichment_results final) /\
    initial_data final = initial_data record /\
    prospect_id final = prospect_id record.
Proof.
  induction order as [| n order IH]; intros record Hinv; cbn [enrich_from].
  - auto.
  - destruct (get_step self n) as [s |]; [| apply IH, Hinv].
    destruct (negb (deps_met s record)).
    + destruct (IH {| prospect_id := prospect_id record;
                      initial_data := initial_data record;
                      enriched_data := enriched_data record;
                      enrichment_results :=
                        enrichment_results record ++ [skipped_result (name s)] |})
        as (H1 & H2 & H3).
      { cbn [enriched_data enrichment_results]. rewrite replay_snoc. exact Hinv. }
      split; [exact H1 |]. split; [exact H2 | exact H3].
    + destruct (required s && status_eqb (status (execute s (all_data record))) FAILED).
      * split; [apply merge_replay, Hinv | split; reflexivity].
      * destruct (IH (merge_enrichment record (execute s (all_data record)))
                    (merge_replay _ _ Hinv)) as (H1 & H2 & H3).
        split; [exact H1 |]. split; [exact H2 | exact H3].
Qed.

(** X16.  The enriched fields of the record [enrich] returns are the data
    of its COMPLETED results, merged in the order of the results, later
    keys winning; the initial data and the prospect id come back
    untouched. *)
Theorem enriched_data_is_replay (self : EnrichmentPipeline) (pid : Value)
    (initial : Dict) :
  let record := enrich self pid initial in
  enriched_data record = replay (enrichment_results record) /\
  initial_data record = initial /\
  prospect_id record = pid.
Proof.
  intros record. subst record. unfold enrich.
  apply (enrich_from_replay self (_step_order self)
           {| prospect_id := pid; initial_data := initial;
              enriched_data := ∅; enrichment_results := [] |}).
  reflexivity.
Qed.

Lemma replay_keeps key l :
  forall acc : Dict,
    (forall r, In r l -> writes key r = false) ->
    fold_left
      (fun (enriched : Dict) r =>
         match status_eqb (status r) COMPLETED, data r with
         | true, Some d => d ∪ enriched
         | _, _ => enriched
         end) l acc !! key
    = acc !! key.
Proof.
  induction l as [| r l IH]; intros acc Hno; cbn [fold_left]; [reflexivity |].
  rewrite IH by (intros r' Hr'; apply Hno; right; exact Hr').
  specialize (Hno r (or_introl eq_refl)). unfold writes in Hno.
  destruct (status_eqb (status r) COMPLETED); [| reflexivity].
  destruct (data r) as [d |]; [| reflexivity].
  cbn [andb] in Hno. rewrite lookup_union.
  destruct (d !! key); [discriminate Hno |].
  destruct (acc !! key); reflexivity.
Qed.

(** X23.  After a run, a field reads as the last COMPLETED result that
    carries it gives it, whatever earlier results and the initial data
    hold for it; a field that no COMPLETED result carries reads as in the
    initial data. *)
Theorem last_completed_result_wins (self : EnrichmentPipeline) (pid : Value)
    (initial : Dict) (key : string) :
  let record := enrich self pid initial in
  (forall l1 r l2 d v,
     enrichment_results record = l1 ++ r :: l2 ->
     status r = COMPLETED -> data r = Some d -> d !! key = Some v ->
     (forall r', In r' l2 -> writes key r' = false) ->
     all_data record !! key = Some v) /\
  ((forall r, In r (enrichment_results record) -> writes key r = false) ->
   all_data record !! key = initial !! key).
Proof.
  intros record. subst record.
  assert (H : enriched_data (enrich self pid initial)
              = replay (enrichment_results (enrich self pid initial)) /\
              initial_data (enrich self pid initial) = initial).
  { destruct (enrich_from_replay self (_step_order self)
                {| prospect_id := pid; initial_data := initial;
                   enriched_data := ∅; enrichment_results := [] |} eq_refl)
      as (H1 & H2 & _).
    split; [exact H1 | exact H2]. }
  destruct H as [Hreplay Hinit]. unfold all_data. split.
  - intros l1 r l2 d v Hres Hst Hd Hv Hlater.
    rewrite Hreplay, Hinit, Hres. unfold replay. rewrite fold_left_app.
    cbn [fold_left]. rewrite Hst, Hd. cbn [status_eqb]. rewrite lookup_union.
    rewrite (replay_keeps key l2 _ Hlater), lookup_union, Hv.
    destruct (fold_left _ l1 ∅ !! key); destruct (initial !! key); reflexivity.
  - intros Hnone. rewrite Hreplay, Hinit, lookup_union. unfold replay.
    rewrite (replay_keeps key _ ∅ Hnone), lookup_empty.
    destruct (initial !! key); reflexivity.
Qed.

Lemma last_completed_result_wins_witness :
  all_data (enrich Samples.pipeline_d (VStr "acme") {[ "c" := VInt 0 ]}) !! "c"
  = Some (VBool true).
Proof.
  apply (proj1 (last_completed_result_wins Samples.pipeline_d (VStr "acme")
                  {[ "c" := VInt 0 ]} "c")
           [ {| step_name := "A"; status := COMPLETED;
                data := Some {[ "a" := VBool true ]}; error := None |};
             {| step_name := "B"; status := FAILED; data := None;
                error := Some "connection refused" |} ]
           {| step_name := "C"; status := COMPLETED;
              data := Some {[ "c" := VBool true ]}; error := None |}
           [] {[ "c" := VBool true ]} (VBool true)).
  - reflexivity.
  - reflexivity.
  - reflexivity.
  - reflexivity.
  - intros r' [].
Defined.

Lemma execute_status s input :
  status (execute s input) = COMPLETED \/
  status (execute s input) = FAILED \/
  status (execute s input) = SKIPPED.
Proof.
  unfold execute. destruct (negb (enabled s)); [auto |].
  generalize (Z.to_nat (retry_count s + 1)) 0 (@None string).
  induction n as [| n IH]; intros i e; cbn [attempt]; [auto |].
  destruct (fetch_function s input i); [auto | apply IH].
Qed.

(** What a run adds to the results: no result is PENDING or IN_PROGRESS,
    and a fetched step had all its dependencies completed before. *)
Lemma enrich_from_discipline self order :
  forall record, exists new,
    enrichment_results (enrich_from self order record)
    = enrichment_results record ++ new /\
    (forall r, In r new ->
       status r = COMPLETED \/ status r = FAILED \/ status r = SKIPPED) /\
    (forall n1 r n2 s d,
       new = n1 ++ r :: n2 -> fetched_for r = true ->
       get_step self (step_name r) = Some s -> In d (depends_on s) ->
       exists r', In r' (enrichment_results record ++ n1) /\
                  step_name r' = d /\ status r' = COMPLETED).
Proof.
  induction order as [| n order IH]; intros record; cbn [enrich_from].
  - exists []. rewrite app_nil_r. split; [reflexivity |].
    split; [intros r [] |]. intros [| ? ?] ? ? ? ? H; discriminate H.
  - destruct (get_step self n) as [s |] eqn:Hs; [| apply IH].
    pose proof (EnrichmentFacts.get_step_name _ _ _ Hs) as Hname.
    assert (Hcons : forall r0 record',
               (status r0 = COMPLETED \/ status r0 = FAILED \/ status r0 = SKIPPED) ->
               step_name r0 = n ->
               (fetched_for r0 = true -> deps_met s record = true) ->
               enrichment_results record' = enrichment_results record ++ [r0] ->
               exists new,
                 enrichment_results (enrich_from self order record')
                 = enrichment_results record ++ new /\
                 (forall r, In r new ->
                    status r = COMPLETED \/ status r = FAILED \/ status r = SKIPPED) /\
                 (forall n1 r n2 s' d,
                    new = n1 ++ r :: n2 -> fetched_for r = true ->
                    get_step self (step_name r) = Some s' -> In d (depends_on s') ->
                    exists r', In r' (enrichment_results record ++ n1) /\
                               step_name r' = d /\ status r' = COMPLETED)).
    { intros r0 record' Hst Hr0 Hmet Hres.
      destruct (IH record') as (new & Hnew & Hterm & Hdeps).
      exists (r0 :: new). rewrite Hnew, Hres, <- app_assoc.
      split; [reflexivity |]. split.
      - intros r [<- | Hr]; [exact Hst | apply Hterm, Hr].
      - intros [| x n1] r n2 s' d Heq Hf Hs' Hd; cbn [app] in Heq;
          injection Heq as <- Heq.
        + rewrite Hr0, Hs in Hs'. injection Hs' as <-.
          specialize (Hmet Hf). unfold deps_met in Hmet.
          rewrite forallb_forall in Hmet. specialize (Hmet d Hd).
          apply existsb_exists in Hmet as (r' & Hin & Hr').
          apply andb_prop in Hr' as [Hn' Hc'].
          exists r'. rewrite app_nil_r. split; [exact Hin |].
          split; [apply String.eqb_eq, Hn' |].
          destruct (status r'); simpl in Hc'; congruence.
        + destruct (Hdeps n1 r n2 s' d Heq Hf Hs' Hd) as (r' & Hin & Hr').
          exists r'. split; [| exact Hr'].
          rewrite Hres, <- app_assoc in Hin. exact Hin. }
    destruct (deps_met s record) eqn:Hmet; cbn [negb].
    + destruct (required s && status_eqb (status (execute s (all_data record))) FAILED).
      * exists [execute s (all_data record)].
        split; [reflexivity |]. split.
        -- intros r [<- | []]. apply execute_status.
        -- intros [| x [| y n1]] r n2 s' d Heq Hf Hs' Hd; cbn [app] in Heq;
             try discriminate Heq.
           injection Heq as <- <-.
           rewrite EnrichmentFacts.execute_name, Hname, Hs in Hs'. injection Hs' as <-.
           unfold deps_met in Hmet. rewrite forallb_forall in Hmet.
           specialize (Hmet d Hd).
           apply existsb_exists in Hmet as (r' & Hin & Hr').
           apply andb_prop in Hr' as [Hn' Hc'].
           exists r'. rewrite app_nil_r. split; [exact Hin |].
           split; [apply String.eqb_eq, Hn' |].
           destruct (status r'); simpl in Hc'; congruence.
      * apply (Hcons (execute s (all_data record))); try reflexivity.
        -- apply execute_status.
        -- rewrite EnrichmentFacts.execute_name. exact Hname.
    + apply (Hcons (skipped_result (name s))
               {| prospect_id := prospect_id record;
                  initial_data := initial_data record;
                  enriched_data := enriched_data record;
                  enrichment_results :=
                    enrichment_results record ++ [skipped_result (name s)] |});
        try reflexivity.
      * right. right. reflexivity.
      * exact Hname.
      * discriminate.
Qed.

(** X17.  A step is fetched only after its dependencies completed: in the
    results of a run, every COMPLETED or FAILED result is preceded, for
    each dependency of its step, by a COMPLETED result of that
    dependency.  A step with a failed, skipped or missing dependency is
    therefore never fetched. *)
Theorem fetched_after_dependencies (self : EnrichmentPipeline) (pid : Value)
    (initial : Dict) l1 r l2 (s : EnrichmentStep) (d : string) :
  enrichment_results (enrich self pid initial) = l1 ++ r :: l2 ->
  fetched_for r = true ->
  get_step self (step_name r) = Some s ->
  In d (depends_on s) ->
  exists r', In r' l1 /\ step_name r' = d /\ status r' = COMPLETED.
Proof.
  intros Hres Hf Hs Hd.
  destruct (enrich_from_discipline self (_step_order self)
              {| prospect_id := pid; initial_data := initial;
                 enriched_data := ∅; enrichment_results := [] |})
    as (new & Hnew & _ & Hdeps).
  fold (enrich self pid initial) in Hnew. cbn [enrichment_results app] in Hnew, Hdeps.
  rewrite Hnew in Hres. apply (Hdeps l1 r l2 s d Hres Hf Hs Hd).
Qed.

Lemma fetched_after_dependencies_witness :
  exists r',
    In r' [ {| step_name := "A"; status := COMPLETED;
               data := Some {[ "a" := VBool true ]}; error := None |} ] /\
    step_name r' = "A"%string /\ status r' = COMPLETED.
Proof.
  apply (fetched_after_dependencies Samples.pipeline_c (VStr "acme") ∅
           _ {| step_name := "B"; status := FAILED; data := None;
                error := Some "connection refused" |} []
           Samples.step_b_required "A").
  - reflexivity.
  - reflexivity.
  - reflexivity.
  - left. reflexivity.
Defined.

(** X18.  Every result [enrich] records is COMPLETED, FAILED or SKIPPED,
    and [enrichment_complete] holds of the record exactly when none of its
    results is FAILED; a record without results is complete. *)
Theorem complete_iff_no_failure (self : EnrichmentPipeline) (pid : Value)
    (initial : Dict) :
  let record := enrich self pid initial in
  (forall r, In r (enrichment_results record) ->
     status r = COMPLETED \/ status r = FAILED \/ status r = SKIPPED) /\
  (enrichment_complete record = true <->
   forall r, In r (enrichment_results record) -> status r <> FAILED).
Proof.
  intros record.
  destruct (enrich_from_discipline self (_step_order self)
              {| prospect_id := pid; initial_data := initial;
                 enriched_data := ∅; enrichment_results := [] |})
    as (new & Hnew & Hterm & _).
  fold (enrich self pid initial) in Hnew. fold record in Hnew.
  cbn [enrichment_results app] in Hnew.
  assert (Hall : forall r, In r (enrichment_results record) ->
                   status r = COMPLETED \/ status r = FAILED \/ status r = SKIPPED).
  { rewrite Hnew. exact Hterm. }
  split; [exact Hall |].
  unfold enrichment_complete. rewrite forallb_forall. split.
  - intros H r Hr Hfail. specialize (H r Hr). rewrite Hfail in H. discriminate H.
  - intros H r Hr. destruct (Hall r Hr) as [-> | [Hf | ->]]; try reflexivity.
    destruct (H r Hr Hf).
Qed.

(** The run goes through the whole order unless a required step fails. *)
Lemma enrich_from_whole_order self order :
  forall record, exists new rest,
    enrichment_results (enrich_from self order record)
    = enrichment_results record ++ new /\
    resolvable self order = map step_name new ++ rest /\
    (rest <> [] -> exists r, In r new /\ required_failed self r = true).
Proof.
  induction order as [| n order IH]; intros record; cbn [enrich_from resolvable List.filter].
  - exists [], []. rewrite app_nil_r. split; [reflexivity |].
    split; [reflexivity |]. intros H. destruct (H eq_refl).
  - fold (resolvable self order).
    destruct (get_step self n) as [s |] eqn:Hs; [| apply IH].
    pose proof (EnrichmentFacts.get_step_name _ _ _ Hs) as Hname.
    assert (Hcons : forall r0 record',
               step_name r0 = n ->
               enrichment_results record' = enrichment_results record ++ [r0] ->
               exists new rest,
                 enrichment_results (enrich_from self order record')
                 = enrichment_results record ++ new /\
                 n :: resolvable self order = map step_name new ++ rest /\
                 (rest <> [] -> exists r, In r new /\ required_failed self r = true)).
    { intros r0 record' Hr0 Hres.
      destruct (IH record') as (new & rest & Hnew & Hnames & Hstop).
      exists (r0 :: new), rest. rewrite Hnew, Hres, <- app_assoc.
      split; [reflexivity |]. split; [cbn [map app]; rewrite Hr0, Hnames; reflexivity |].
      intros Hrest. destruct (Hstop Hrest) as (r & Hr & Hf).
      exists r. split; [right; exact Hr | exact Hf]. }
    destruct (negb (deps_met s record)).
    + apply (Hcons (skipped_result (name s))
               {| prospect_id := prospect_id record;
                  initial_data := initial_data record;
                  enriched_data := enriched_data record;
                  enrichment_results :=
                    enrichment_results record ++ [skipped_result (name s)] |});
        [exact Hname | reflexivity].
    + destruct (required s && status_eqb (status (execute s (all_data record))) FAILED)
        eqn:Hstop.
      * exists [execute s (all_data record)], (resolvable self order).
        split; [reflexivity |].
        split; [cbn [map app]; rewrite EnrichmentFacts.execute_name, Hname; reflexivity |].
        intros _. exists (execute s (all_data record)). split; [left; reflexivity |].
        unfold required_failed. rewrite EnrichmentFacts.execute_name, Hname, Hs.
        rewrite andb_comm. exact Hstop.
      * apply (Hcons (execute s (all_data record))
                 (merge_enrichment record (execute s (all_data record))));
          [rewrite EnrichmentFacts.execute_name; exact Hname | reflexivity].
Qed.

(** X19.  Unless a required step fails, a run of a pipeline whose order
    was computed by [_recalculate_order] records one result for every
    step, in execution order: failures of steps that are not required,
    skipped steps and disabled steps do not end the run. *)
Theorem every_step_gets_a_result (self : EnrichmentPipeline) (pid : Value)
    (initial : Dict) :
  let p := _recalculate_order self in
  (forall r, In r (enrichment_results (enrich p pid initial)) ->
     required_failed p r = false) ->
  map step_name (enrichment_results (enrich p pid initial)) = _step_order p /\
  NoDup (_step_order p) /\
  forall s, In s (steps self) -> In (name s) (_step_order p).
Proof.
  intros p Hnofail.
  destruct (EnrichmentFacts.recalculate_order_eq self) as (st & Hst & Heq).
  destruct (EnrichmentFacts.traverse_covers _ _ Hst) as [Hnd Hcover].
  assert (Horder : _step_order p = st.2) by (subst p; rewrite Heq; reflexivity).
  assert (Hsteps : steps p = steps self) by (subst p; rewrite Heq; reflexivity).
  assert (Hres : resolvable p (_step_order p) = _step_order p).
  { unfold resolvable. apply forallb_filter_id. apply forallb_forall.
    intros n Hn. rewrite Horder in Hn. apply Hcover in Hn as [s Hs].
    unfold get_step. rewrite Hsteps, Hs. reflexivity. }
  destruct (enrich_from_whole_order p (_step_order p)
              {| prospect_id := pid; initial_data := initial;
                 enriched_data := ∅; enrichment_results := [] |})
    as (new & rest & Hnew & Hnames & Hstop).
  fold (enrich p pid initial) in Hnew. cbn [enrichment_results app] in Hnew.
  rewrite Hres in Hnames.
  assert (Hrest : rest = []).
  { destruct rest as [| x rest]; [reflexivity |].
    destruct Hstop as (r & Hr & Hf); [discriminate |].
    rewrite <- Hnew in Hr. rewrite (Hnofail r Hr) in Hf. discriminate Hf. }
  subst rest. rewrite app_nil_r in Hnames.
  split; [rewrite Hnew; symmetry; exact Hnames |].
  rewrite Horder. split; [exact Hnd |].
  intros s Hs. apply Hcover. apply EnrichmentFacts.find_step_in, Hs.
Qed.

Lemma every_step_gets_a_result_witness :
  let p := _recalculate_order Samples.pipeline_d in
  map step_name (enrichment_results (enrich p (VStr "acme") ∅)) = _step_order p /\
  NoDup (_step_order p) /\
  forall s, In s (steps Samples.pipeline_d) -> In (name s) (_step_order p).
Proof.
  apply (every_step_gets_a_result Samples.pipeline_d (VStr "acme") ∅).
  intros r [<- | [<- | [<- | []]]]; reflexivity.
Defined.

(** *** Orders *)

(** X20.  Whatever the dependencies, cyclic or dangling, the order
    [_recalculate_order] computes lists the names of the steps and nothing
    else, each once; when no two steps share a name it is a permutation of
    the step names.  It depends on the steps alone: recomputing it changes
    nothing. *)
Theorem order_lists_every_step (self : EnrichmentPipeline) :
  let p := _recalculate_order self in
  steps p = steps self /\
  NoDup (_step_order p) /\
  (forall n, In n (_step_order p) <-> is_Some (get_step self n)) /\
  (NoDup (map name (steps self)) ->
   Permutation (_step_order p) (map name (steps self))) /\
  _recalculate_order p = p.
Proof.
  intros p.
  destruct (EnrichmentFacts.recalculate_order_eq self) as (st & Hst & Heq).
  destruct (EnrichmentFacts.traverse_covers _ _ Hst) as [Hnd Hcover].
  assert (Horder : _step_order p = st.2) by (subst p; rewrite Heq; reflexivity).
  assert (Hsteps : steps p = steps self) by (subst p; rewrite Heq; reflexivity).
  split; [exact Hsteps |]. rewrite Horder.
  split; [exact Hnd |]. split; [exact Hcover |]. split.
  - intros Hnames. apply NoDup_Permutation; [exact Hnd | exact Hnames |].
    intros n. rewrite !list_elem_of_In. rewrite Hcover. split.
    + intros [s Hs]. apply EnrichmentFacts.find_step_name in Hs as [Hin <-].
      apply in_map, Hin.
    + intros Hin. apply in_map_iff in Hin as (s & <- & Hin).
      apply EnrichmentFacts.find_step_in, Hin.
  - subst p. rewrite Heq. unfold _recalculate_order. cbn [steps].
    rewrite Hst. destruct st. reflexivity.
Qed.

Section InsertionOrder.
Variable all : list EnrichmentStep.

Lemma visit_unfold fuel n visited order :
  visit (S fuel) all n (visited, order)
  = if decide (n ∈ visited) then Some (visited, order)
    else
      match find_step all n with
      | Some step =>
          match for_each (visit fuel all) (depends_on step) ({[ n ]} ∪ visited, order) with
          | Some (visited', order') => Some (visited', order' ++ [n])
          | None => None
          end
      | None => Some ({[ n ]} ∪ visited, order)
      end.
Proof. reflexivity. Qed.

(** Dependencies that are visited already, or name no step, leave the
    order as it is. *)
Lemma settled_deps fuel deps :
  forall (visited : gset string) order,
    (forall d, In d deps -> d ∈ visited \/ find_step all d = None) ->
    exists visited' : gset string,
      for_each (visit (S fuel) all) deps (visited, order) = Some (visited', order) /\
      visited ⊆ visited' /\
      forall x, x ∈ visited' -> x ∈ visited \/ find_step all x = None.
Proof.
  induction deps as [| d deps IH]; intros visited order Hdeps; cbn [for_each].
  - exists visited. split; [reflexivity |]. split; [set_solver | auto].
  - rewrite visit_unfold. destruct (decide (d ∈ visited)) as [Hin | Hnin].
    + apply IH. intros d' Hd'. apply Hdeps. right. exact Hd'.
    + destruct (Hdeps d (or_introl eq_refl)) as [Hin | Hnone]; [contradiction |].
      rewrite Hnone.
      destruct (IH ({[ d ]} ∪ visited) order) as (visited' & Hrun & Hsub & Hnew).
      { intros d' Hd'. destruct (Hdeps d' (or_intror Hd')) as [H | H];
          [left; set_solver | right; exact H]. }
      exists visited'. split; [exact Hrun |]. split; [set_solver |].
      intros x Hx. destruct (Hnew x Hx) as [H | H]; [| right; exact H].
      apply elem_of_union in H as [H | H]; [| left; exact H].
      apply elem_of_singleton in H. subst x. right. exact Hnone.
Qed.

Lemma visit_appends fuel n s (visited : gset string) order :
  n ∉ visited ->
  find_step all n = Some s ->
  (forall d, In d (depends_on s) -> d ∈ {[ n ]} ∪ visited \/ find_step all d = None) ->
  exists visited' : gset string,
    visit (S (S fuel)) all n (visited, order) = Some (visited', order ++ [n]) /\
    {[ n ]} ∪ visited ⊆ visited' /\
    forall x, x ∈ visited' -> x ∈ visited \/ x = n \/ find_step all x = None.
Proof.
  intros Hnin Hfind Hdeps. rewrite visit_unfold.
  destruct (decide (n ∈ visited)) as [Hin | _]; [contradiction |].
  rewrite Hfind.
  destruct (settled_deps fuel (depends_on s) ({[ n ]} ∪ visited) order Hdeps)
    as (visited' & -> & Hsub & Hnew).
  exists visited'. split; [reflexivity |]. split; [exact Hsub |].
  intros x Hx. destruct (Hnew x Hx) as [H | H]; [| right; right; exact H].
  apply elem_of_union in H as [H | H]; [| left; exact H].
  apply elem_of_singleton in H. right. left. exact H.
Qed.

Lemma added_in_order_names seen l :
  added_in_order all seen l = true ->
  NoDup (map name l) /\ forall s, In s l -> ~ In (name s) seen.
Proof.
  revert seen. induction l as [| s l IH]; intros seen H; cbn [added_in_order map] in *.
  - split; [constructor | intros s []].
  - apply andb_prop in H as [H Hrest]. apply andb_prop in H as [Hfresh _].
    destruct (IH _ Hrest) as [Hnd Hnot].
    assert (Hs : ~ In (name s) seen).
    { intros Hin. apply negb_true_iff in Hfresh.
      assert (existsb (String.eqb (name s)) seen = true); [| congruence].
      apply existsb_exists. exists (name s). split; [exact Hin | apply String.eqb_refl]. }
    split.
    + apply NoDup_ListNoDup. constructor; [| apply NoDup_ListNoDup, Hnd].
      intros Hin. apply in_map_iff in Hin as (s' & Heq & Hs').
      apply (Hnot s' Hs'). left. symmetry. exact Heq.
    + intros s' [<- | Hs']; [exact Hs |].
      intros Hin. apply (Hnot s' Hs'). right. exact Hin.
Qed.

Lemma find_step_unique (l : list EnrichmentStep) s :
  NoDup (map name l) -> In s l -> find_step l (name s) = Some s.
Proof.
  unfold find_step. induction l as [| x l IH]; intros Hnd Hin; [destruct Hin |].
  cbn [List.find map] in *. apply NoDup_ListNoDup in Hnd.
  inversion Hnd as [| ? ? Hx Hl]; subst.
  destruct Hin as [-> | Hin].
  - rewrite String.eqb_refl. reflexivity.
  - destruct (String.eqb (name x) (name s)) eqn:Heq.
    + apply String.eqb_eq in Heq. exfalso. apply Hx. rewrite Heq.
      apply in_map, Hin.
    + apply IH; [apply NoDup_ListNoDup, Hl | exact Hin].
Qed.

Lemma in_order_loop fuel l :
  forall seen (visited : gset string) order,
    added_in_order all seen l = true ->
    (forall s, In s l -> find_step all (name s) = Some s) ->
    (forall x, In x seen -> x ∈ visited) ->
    (forall x, x ∈ visited -> In x seen \/ find_step all x = None) ->
    exists visited' : gset string,
      for_each (visit (S (S fuel)) all) (map name l) (visited, order)
      = Some (visited', order ++ map name l).
Proof.
  induction l as [| s l IH]; intros seen visited order Hok Hfind Hseen Hvisited;
    cbn [map for_each].
  - exists visited. rewrite app_nil_r. reflexivity.
  - destruct (added_in_order_names seen (s :: l) Hok) as [_ Hfresh].
    cbn [added_in_order] in Hok.
    apply andb_prop in Hok as [Hok Hrest]. apply andb_prop in Hok as [_ Hdeps].
    rewrite forallb_forall in Hdeps.
    assert (Hs : find_step all (name s) = Some s) by (apply Hfind; left; reflexivity).
    assert (Hnin : name s ∉ visited).
    { intros Hin. destruct (Hvisited _ Hin) as [H | H]; [| congruence].
      apply (Hfresh s (or_introl eq_refl) H). }
    destruct (visit_appends fuel (name s) s visited order Hnin Hs)
      as (visited1 & Hrun & Hsub & Hnew).
    { intros d Hd. specialize (Hdeps d Hd). apply orb_prop in Hdeps as [H | H].
      - left. apply existsb_exists in H as (x & Hx & Heq).
        apply String.eqb_eq in Heq. subst x. apply elem_of_union. right.
        apply Hseen, Hx.
      - right. destruct (find_step all d); [discriminate H | reflexivity]. }
    rewrite Hrun.
    destruct (IH (name s :: seen) visited1 (order ++ [name s]) Hrest)
      as (visited' & Hloop).
    + intros s' Hs'. apply Hfind. right. exact Hs'.
    + intros x [<- | Hx]; [set_solver |].
      apply Hsub, elem_of_union. right. apply Hseen, Hx.
    + intros x Hx. destruct (Hnew x Hx) as [H | [-> | H]].
      * destruct (Hvisited x H) as [H' | H']; [left; right; exact H' | right; exact H'].
      * left. left. reflexivity.
      * right. exact H.
    + exists visited'. rewrite Hloop, <- app_assoc. reflexivity.
Qed.

End InsertionOrder.

(** X21.  When the steps were added in dependency order - no two steps
    share a name, and each step depends only on steps added before it or
    on names of no step - the execution order is the order in which the
    steps were added. *)
Theorem insertion_order_is_kept (self : EnrichmentPipeline) :
  added_in_order (steps self) [] (steps self) = true ->
  _step_order (_recalculate_order self) = map name (steps self).
Proof.
  intros Hok. unfold _recalculate_order, traverse.
  destruct (added_in_order_names (steps self) [] (steps self) Hok) as [Hnd _].
  destruct (steps self) as [| s l] eqn:Hsteps.
  - reflexivity.
  - cbn [length].
    destruct (in_order_loop (s :: l) (length l) (s :: l) [] ∅ [] Hok)
      as (visited' & Hloop).
    + intros s' Hs'. apply find_step_unique; assumption.
    + intros x [].
    + intros x Hx. set_solver.
    + rewrite Hloop. reflexivity.
Qed.

Lemma insertion_order_is_kept_witness :
  _step_order (_recalculate_order create_default_pipeline)
  = map name (steps create_default_pipeline).
Proof. apply insertion_order_is_kept. reflexivity. Defined.

(** The default pipeline runs its five steps in the order they were
    added. *)
Example default_pipeline_run :
  _step_order create_default_pipeline
  = ["company_basics"; "tech_stack"; "job_postings"; "funding_data"; "reviews"] /\
  map (fun r => (step_name r, status r))
      (enrichment_results (enrich create_default_pipeline (VStr "acme") ∅))
  = [("company_basics", COMPLETED); ("tech_stack", COMPLETED);
     ("job_postings", COMPLETED); ("funding_data", COMPLETED);
     ("reviews", COMPLETED)] /\
  enrichment_complete (enrich create_default_pipeline (VStr "acme") ∅) = true.
Proof. repeat split. Qed.

(** *** Batches and statistics *)






(** Two prospects through a pipeline whose second step always fails. *)
Example stats_of_a_batch :
  let p := Samples.build [Samples.step_a; Samples.step_b_optional] in
  let stats := get_pipeline_stats p
                 (enrich_batch_sequential p [∅; {[ "id" := VStr "bolt" ]}] "id") in
  (total_prospects stats, fully_enriched stats) = (2%Z, 0%Z) /\
  (fun st => (completed st, failed st, skipped st)) <$> step_stats stats !! "B"
  = Some (0%Z, 2%Z, 0%Z).
Proof. split; reflexivity. Qed.

End EnrichmentExtras.
